(** * The [styled] tag processor of linaria, and its interpolation validator

    A shallow embedding of [packages/react/src/processors/styled.ts]
    (class [StyledProcessor]) and of [throwIfInvalid].  Mutable instance
    state ([#variableIdx], [#variablesCache], [interpolations],
    [dependencies]) is threaded explicitly: every method that mutates the
    instance returns its result together with the updated instance.  Maps
    ([Map], [Record<string, _>]) are stdpp [gmap]s. *)

From Stdlib Require Import Floats.SpecFloat.
From stdpp Require Import base option list strings pretty gmap relations.

Set Warnings "-register-all,-clear-no-such-hyp".
Local Open Scope string_scope.
Local Open Scope list_scope.
Local Open Scope nat_scope.

(** ** JavaScript truthiness of strings *)

(** [if (s)] on a value of type [string]: only the empty string is falsy. *)
Definition truthy_string (s : string) : bool :=
  match s with
  | EmptyString => false
  | String _ _ => true
  end.

(** [if (o)] on a value of type [string | undefined]. *)
Definition truthy_opt (o : option string) : bool :=
  match o with
  | Some s => truthy_string s
  | None => false
  end.

(** ** Syntax tree *)

(** The part of Babel's node type the processor builds or passes on.
    [SourceNode] stands for a node of the original tree that the processor
    only moves around (an interpolated expression, the callee). *)
Inductive Expression : Type :=
  | SourceNode (code : string)
  | Identifier (name : string)
  | StringLiteral (value : string) (raw : option string)
  | NullLiteral
  | BooleanLiteral (value : bool)
  | CallExpression (callee : Expression) (arguments : list Expression)
  | BlockStatement (body : list Expression)
  | ArrowFunctionExpression (params : list Expression) (body : Expression)
  | ArrayExpression (elements : list Expression)
  | ObjectExpression (properties : list (Expression * Expression)).

(** [singleQuotedStringLiteral]: a string literal whose [extra.raw] is the
    value between single quotes. *)
Definition singleQuotedStringLiteral (value : string) : Expression :=
  StringLiteral value (Some ("'" +:+ value +:+ "'")).

(** ** Parameters of a call site *)

(** Constant values of [ValueType.CONST]; only [typeof value === 'string']
    is inspected. *)
Inductive ConstantValue : Type :=
  | ConstString (s : string)
  | ConstNumber (x : spec_float)
  | ConstBoolean (b : bool)
  | ConstNull.

(** [ExpressionValue], by its [kind]. *)
Inductive ExpressionValue : Type :=
  | FunctionValue (ex : Expression)
  | ConstValue (ex : Expression) (value : ConstantValue)
  | LazyValue (ex : string) (source : string)
      (importedFrom : option (list string)).

(** An element of a template: a quasi, the text between two
    interpolations, or the value of an interpolated expression. *)
Inductive TemplateElement : Type :=
  | TemplateQuasi (raw : string)
  | TemplateValue (value : ExpressionValue).

Inductive Param : Type :=
  | CalleeParam (ex : Expression)
  | CallParam (args : list ExpressionValue)
  | MemberParam (property : string)
  | TemplateParam (template : list TemplateElement).

(** ** The processor instance *)

(** [WrappedNode]: a string, or [{ node, nonLinaria?, source }]. *)
Inductive WrappedNode : Type :=
  | TagName (tag : string)
  | ComponentRef (node : string) (nonLinaria : bool) (source : string).

Record IInterpolation : Type := {
  int_id : string;
  int_node : Expression;
  int_source : string;
  int_unit : string;
}.

(** The fields of [IVariableContext] other than the [index] accessor. *)
Record VariableContext : Type := {
  componentName : string;
  componentSlug : string;
  precedingCss : string;
  processor : string;
  source : string;
  unit : string;
  valueSlug : string;
}.

(** What a custom slug function does with the context it receives, as far
    as the instance can observe it: it reads [context.index] some number
    of times (each read runs the accessor) and returns a string. *)
Inductive SlugRun : Type :=
  | SlugReturn (result : string)
  | SlugReadIndex (k : nat → SlugRun).

(** [options.variableNameSlug]: a function of the context or a pattern
    for [buildSlug]. *)
Inductive VariableNameSlug : Type :=
  | SlugFunction (fn : VariableContext → SlugRun)
  | SlugPattern (pattern : string).

Record Options : Type := {
  extensions : list string;
  variableNameSlug : option VariableNameSlug;
}.

Record StyledProcessor : Type := {
  component : WrappedNode;
  className : string;
  displayName : string;
  slug : string;
  tagSource : string;
  callee : Expression;
  options : Options;
  filename : option string;
  dependencies : list ExpressionValue;
  interpolations : list IInterpolation;
  variableIdx : nat;
  variablesCache : gmap string string;
}.

Definition set_variableIdx (i : nat) (p : StyledProcessor) : StyledProcessor :=
  {| component := component p; className := className p;
     displayName := displayName p; slug := slug p; tagSource := tagSource p;
     callee := callee p; options := options p; filename := filename p;
     dependencies := dependencies p; interpolations := interpolations p;
     variableIdx := i; variablesCache := variablesCache p |}.

Definition set_variablesCache (c : gmap string string) (p : StyledProcessor)
  : StyledProcessor :=
  {| component := component p; className := className p;
     displayName := displayName p; slug := slug p; tagSource := tagSource p;
     callee := callee p; options := options p; filename := filename p;
     dependencies := dependencies p; interpolations := interpolations p;
     variableIdx := variableIdx p; variablesCache := c |}.

Definition set_interpolations (l : list IInterpolation) (p : StyledProcessor)
  : StyledProcessor :=
  {| component := component p; className := className p;
     displayName := displayName p; slug := slug p; tagSource := tagSource p;
     callee := callee p; options := options p; filename := filename p;
     dependencies := dependencies p; interpolations := l;
     variableIdx := variableIdx p; variablesCache := variablesCache p |}.

(** ** Variable ids *)

Section Allocator.

(** External collaborators of the allocator:
    [toValidCSSIdentifier] and [slugify] are string functions, and
    [buildSlug pattern args] receives the copy [{ ...context }], that is
    the context fields and the value the [index] accessor gave when the
    copy was made. *)
Variable toValidCSSIdentifier : string → string.
Variable slugify : string → string.
Variable buildSlug : string → VariableContext * nat → string.

(** [getIndex]: [this.#variableIdx++].  The counter is a JavaScript
    number; it is counted in [nat], on which [++] is exact (as it is on
    numbers below 2^53). *)
Definition getIndex (p : StyledProcessor) : nat * StyledProcessor :=
  (variableIdx p, set_variableIdx (S (variableIdx p)) p).

(** [getVariableContext]: builds the context; the counter is touched
    only when [index] is read. *)
Definition getVariableContext (p : StyledProcessor)
    (source unit precedingCss : string) : VariableContext :=
  {| componentName := displayName p;
     componentSlug := slug p;
     precedingCss := precedingCss;
     processor := "StyledProcessor";
     source := source;
     unit := unit;
     valueSlug := slugify (source +:+ unit) |}.

(** Runs a slug function against the instance: each read of [index]
    calls [getIndex]. *)
Fixpoint runSlug (r : SlugRun) (p : StyledProcessor)
    : string * StyledProcessor :=
  match r with
  | SlugReturn s => (s, p)
  | SlugReadIndex k => let '(i, p') := getIndex p in runSlug (k i) p'
  end.

(** [getCustomVariableId].  [None] is [undefined].  For a pattern, the
    object spread [{ ...context }] copies every own enumerable property,
    so it runs the [index] accessor once, before [buildSlug] is called. *)
Definition getCustomVariableId (p : StyledProcessor)
    (source unit precedingCss : string) : option string * StyledProcessor :=
  let context := getVariableContext p source unit precedingCss in
  match variableNameSlug (options p) with
  | None => (None, p)
  | Some (SlugPattern pattern) =>
      if truthy_string pattern then
        let '(i, p') := getIndex p in
        (Some (buildSlug pattern (context, i)), p')
      else (None, p)
  | Some (SlugFunction fn) =>
      let '(s, p') := runSlug (fn context) p in (Some s, p')
  end.

(** [getVariableId]. *)
Definition getVariableId (p : StyledProcessor)
    (source unit precedingCss : string) : string * StyledProcessor :=
  let value := source +:+ unit in
  match variablesCache p !! value with
  | Some cached => (cached, p)
  | None =>
      let '(id, p1) := getCustomVariableId p source unit precedingCss in
      if truthy_opt id then (toValidCSSIdentifier (default "" id), p1)
      else
        let '(i, p2) := getIndex p1 in
        let fresh := slug p2 +:+ "-" +:+ pretty i in
        (fresh,
         set_variablesCache (<[value := fresh]> (variablesCache p2)) p2)
  end.

(** [addInterpolation]: allocates the id and appends the record. *)
Definition addInterpolation (p : StyledProcessor) (node : Expression)
    (precedingCss source unit : string) : string * StyledProcessor :=
  let '(id, p') := getVariableId p source unit precedingCss in
  (id, set_interpolations
         (interpolations p' ++
            [{| int_id := id; int_node := node;
                int_source := source; int_unit := unit |}]) p').

(** A request to the allocator: [(source, unit, precedingCss)]. *)
Definition Request : Type := string * string * string.

Definition request_key (r : Request) : string := r.1.1 +:+ r.1.2.

(** A sequence of [getVariableId] calls on one instance, in order. *)
Fixpoint allocate_all (p : StyledProcessor) (rs : list Request)
    : list string * StyledProcessor :=
  match rs with
  | [] => ([], p)
  | r :: rs' =>
      let '(id, p1) := getVariableId p r.1.1 r.1.2 r.2 in
      let '(ids, p2) := allocate_all p1 rs' in
      (id :: ids, p2)
  end.

End Allocator.

(** ** Construction: which component does the call site wrap? *)

(** What leaves the constructor by [throw]: the [SKIP] sentinel, an
    [Error] with its message, or an exception raised by [readFileSync] or
    [JSON.parse] while a manifest is loaded. *)
Inductive Exception : Type :=
  | SKIP
  | Error (message : string)
  | ManifestError (path : string).

Inductive Completion (A : Type) : Type :=
  | Normal (a : A)
  | Throw (e : Exception).
Arguments Normal {A} a.
Arguments Throw {A} e.

(** The part of a parsed [package.json] that is read:
    [packageJSON?.linaria?.components]. *)
Record PackageJSON : Type := {
  linaria_components : option string;
}.

(** What the base class constructor ([super]) sets from the remaining
    constructor arguments. *)
Record BaseFields : Type := {
  base_tagSource : string;
  base_className : string;
  base_displayName : string;
  base_slug : string;
  base_options : Options;
  base_filename : option string;
}.

Definition invalid_usage : string := "Invalid usage of `styled` tag".

(** What the base class constructor, called as
    [super([tag, template], ...args)], pushes to [dependencies] before
    the body of this constructor goes on: every expression value of the
    template, in order. *)
Definition template_dependencies (template : list TemplateElement)
    : list ExpressionValue :=
  omap (λ e, match e with
             | TemplateValue v => Some v
             | TemplateQuasi _ => None
             end) template.

(** [`${this.context.filename}`]. *)
Definition show_filename (f : option string) : string :=
  match f with
  | Some s => s
  | None => "undefined"
  end.

Section Constructor.

(** External collaborators: the manifest locator, manifest loading
    ([None] when [readFileSync] or [JSON.parse] throws), [path]'s
    [dirname] and [join], the replacement of backslashes by [posix.sep],
    the module resolver ([None] when it throws) and the glob matcher. *)
Variable findPackageJSON : string → option string → option string.
Variable readPackageJSON : string → option PackageJSON.
Variable dirname : string → string.
Variable join : string → string → string.
Variable posixSlashes : string → string.
Variable resolveSync : string → string → list string → option string.
Variable minimatch : string → string → bool.

Definition resolve_warning (importedFrom : string) (file : option string)
    (source : string) : string :=
  "Can't resolve " +:+ importedFrom +:+ " from " +:+ show_filename file
  +:+ ". If " +:+ source
  +:+ " is another styled component, it should be resolvable with "
  +:+ "default Node.js resolver. If it's not, please exclude it from "
  +:+ "the linaria.components mask in package.json.".

(** The body of [try { ... }]: [dirname(this.context.filename!)] throws
    on a missing file name, [resolveSync] throws when the file is not
    found; [None] is either exception. *)
Definition try_resolve (opts : Options) (file : option string)
    (importedFrom fullMask : string) : option bool :=
  match file with
  | None => None
  | Some f =>
      match resolveSync importedFrom (dirname f) (extensions opts) with
      | Some fileWithComponent => Some (minimatch fileWithComponent fullMask)
      | None => None
      end
  end.

(** The callback given to [importedFrom.some]: the warnings it logs and
    what it returns. *)
Definition isMatched (opts : Options) (file : option string)
    (selfPkg : option string) (source importedFrom : string)
    : list string * Completion bool :=
  let importedPkg :=
    match findPackageJSON importedFrom file with
    | Some pkg => Some pkg
    | None => selfPkg
    end in
  match importedPkg with
  | Some pkg =>
      if truthy_string pkg then
        match readPackageJSON pkg with
        | None => ([], Throw (ManifestError pkg))
        | Some packageJSON =>
            let mask := linaria_components packageJSON in
            if bool_decide (importedPkg = selfPkg ∧ mask = None) then
              ([], Normal true)
            else if truthy_opt mask then
              let packageDir := dirname pkg in
              let fullMask :=
                posixSlashes (join packageDir (default "" mask)) in
              match try_resolve opts file importedFrom fullMask with
              | Some matched => ([], Normal matched)
              | None =>
                  ([resolve_warning importedFrom file source], Normal false)
              end
            else ([], Normal false)
        end
      else ([], Normal false)
  | None => ([], Normal false)
  end.

(** [importedFrom.some(callback)]: stops at the first [true]. *)
Fixpoint isSomeMatched (opts : Options) (file : option string)
    (selfPkg : option string) (source : string) (importedFrom : list string)
    : list string * Completion bool :=
  match importedFrom with
  | [] => ([], Normal false)
  | i :: rest =>
      match isMatched opts file selfPkg source i with
      | (w, Normal false) =>
          let '(w', r) := isSomeMatched opts file selfPkg source rest in
          (w ++ w', r)
      | (w, r) => (w, r)
      end
  end.

(** The component chosen for [tagOp = ['call', value]], with the
    warnings logged and the values pushed to [dependencies];
    [Normal None] is [component === undefined]. *)
Definition componentOfCall (opts : Options) (file : option string)
    (value : ExpressionValue)
    : list string * Completion (option WrappedNode * list ExpressionValue) :=
  match value with
  | FunctionValue _ => ([], Normal (Some (TagName "FunctionalComponent"), []))
  | ConstValue _ (ConstString s) => ([], Normal (Some (TagName s), []))
  | ConstValue _ _ => ([], Normal (None, []))
  | LazyValue ex source importedFrom =>
      let styled := (Some (ComponentRef ex false source), [value]) in
      match importedFrom with
      | Some (i :: rest) =>
          let selfPkg := findPackageJSON "." file in
          match isSomeMatched opts file selfPkg source (i :: rest) with
          | (w, Normal true) => (w, Normal styled)
          | (w, Normal false) =>
              (w, Normal (Some (ComponentRef ex true source), []))
          | (w, Throw e) => (w, Throw e)
          end
      | _ => ([], Normal styled)
      end
  end.

(** [if (!component)]: [undefined] and the empty string are falsy. *)
Definition component_truthy (c : option WrappedNode) : bool :=
  match c with
  | None => false
  | Some (TagName s) => truthy_string s
  | Some (ComponentRef _ _ _) => true
  end.

Definition build (base : BaseFields) (tag : Expression) (c : WrappedNode)
    (deps : list ExpressionValue) : StyledProcessor :=
  {| component := c;
     className := base_className base;
     displayName := base_displayName base;
     slug := base_slug base;
     tagSource := base_tagSource base;
     callee := tag;
     options := base_options base;
     filename := base_filename base;
     dependencies := deps;
     interpolations := [];
     variableIdx := 0;
     variablesCache := ∅ |}.

(** The steps after both [validateParams] calls and the [SKIP] of an
    already transformed literal: [super] with the template, then the
    choice of the component. *)
Definition construct_component (base : BaseFields) (tag : Expression)
    (tagOp : Param) (template : list TemplateElement)
    : list string * Completion StyledProcessor :=
  let '(w, r) :=
    match tagOp with
    | CallParam [value] =>
        componentOfCall (base_options base) (base_filename base) value
    | _ => ([], Normal (None, []))
    end in
  match r with
  | Throw e => (w, Throw e)
  | Normal (c, deps) =>
      let c' :=
        match tagOp with
        | MemberParam property => Some (TagName property)
        | _ => c
        end in
      match c' with
      | Some comp =>
          if component_truthy c'
          then (w, Normal (build base tag comp
                             (template_dependencies template ++ deps)))
          else (w, Throw (Error invalid_usage))
      | None => (w, Throw (Error invalid_usage))
      end
  end.

(** The constructor.  [validateParams] is external; its two calls are
    modelled by the constraints they are given.  The first,
    [['callee', '*', '...']], wants a callee, any second parameter and at
    least one more parameter, and throws [SKIP] otherwise.  The second
    wants exactly a callee, a call or member, and a template or call, and
    throws the [Error] otherwise.  A call in the place of the template is
    a literal already transformed: [SKIP]. *)
Definition construct (params : list Param) (base : BaseFields)
    : list string * Completion StyledProcessor :=
  match params with
  | CalleeParam tag :: tagOp :: template :: rest =>
      match tagOp, template, rest with
      | (CallParam _ | MemberParam _), TemplateParam elements, [] =>
          construct_component base tag tagOp elements
      | (CallParam _ | MemberParam _), CallParam _, [] => ([], Throw SKIP)
      | _, _, _ => ([], Throw (Error invalid_usage))
      end
  | _ => ([], Throw SKIP)
  end.

End Constructor.

(** ** Code generation *)

(** [t.stringLiteral]. *)
Definition stringLiteral (value : string) : Expression :=
  StringLiteral value None.

(** The [value] getter: the eval-time metadata object. *)
Definition value (p : StyledProcessor) : Expression :=
  let extendsNode :=
    match component p with
    | TagName _ => None
    | ComponentRef node nonLinaria _ =>
        if nonLinaria then None else Some node
    end in
  ObjectExpression
    [ (stringLiteral "displayName", stringLiteral (displayName p));
      (stringLiteral "__wyw_meta",
       ObjectExpression
         [ (stringLiteral "className", stringLiteral (className p));
           (stringLiteral "extends",
            if truthy_opt extendsNode
            then CallExpression (Identifier (default "" extendsNode)) []
            else NullLiteral) ]) ].

(** The [tagExpressionArgument] getter. *)
Definition tagExpressionArgument (p : StyledProcessor) : Expression :=
  match component p with
  | TagName tag =>
      if String.eqb tag "FunctionalComponent"
      then ArrowFunctionExpression [] (BlockStatement [])
      else singleQuotedStringLiteral tag
  | ComponentRef node _ _ => CallExpression (Identifier node) []
  end.

(** The [tagExpression] getter. *)
Definition tagExpression (p : StyledProcessor) : Expression :=
  CallExpression (callee p) [tagExpressionArgument p].

(** [toString]; [tagSource] is what [tagSourceCode()] returns. *)
Definition toString (p : StyledProcessor) : string :=
  let res := λ arg : string, tagSource p +:+ "(" +:+ arg +:+ ")`…`" in
  match component p with
  | TagName tag =>
      if String.eqb tag "FunctionalComponent"
      then res "() => {…}"
      else res ("'" +:+ tag +:+ "'")
  | ComponentRef _ _ source => res source
  end.

(** One element of [allTagsSet]: a tag name, or the array
    [html.elements.svg], which the set holds as a single element. *)
Inductive TagSetElement : Type :=
  | TagString (name : string)
  | TagArray (names : list string).

(** [new Set([...html.elements.html, html.elements.svg])], for the two
    lists of [react-html-attributes]. *)
Definition allTagsSet (html_elements svg_elements : list string)
    : list TagSetElement :=
  (TagString <$> html_elements) ++ [TagArray svg_elements].

(** [set.has(s)] for a string [s]: [Set] compares with SameValueZero, under
    which a string equals only the same string and never an array. *)
Definition set_has (set : list TagSetElement) (s : string) : bool :=
  existsb
    (λ e, match e with
          | TagString name => String.eqb s name
          | TagArray _ => false
          end)
    set.

(** [IProps]; [atomic] is never set by this processor. *)
Record IProps : Type := {
  props_name : string;
  props_class : string;
  props_propsAsIs : bool;
  props_vars : option (gmap string (list Expression));
}.

(** The [forEach] of [getProps]: one assignment [vars[id] = items] per
    interpolation, in order. *)
Definition collect_vars (l : list IInterpolation)
    : gmap string (list Expression) :=
  foldl
    (λ vars i,
       let items := [CallExpression (int_node i) []] in
       let items :=
         if truthy_string (int_unit i)
         then items ++ [stringLiteral (int_unit i)]
         else items in
       <[int_id i := items]> vars)
    ∅ l.

(** The [items] array the loop body builds for one interpolation. *)
Definition var_items (i : IInterpolation) : list Expression :=
  CallExpression (int_node i) []
  :: (if truthy_string (int_unit i) then [stringLiteral (int_unit i)] else []).

Section Props.

Variable html_elements svg_elements : list string.

(** [getProps]. *)
Definition getProps (p : StyledProcessor) : IProps :=
  {| props_name := displayName p;
     props_class := className p;
     props_propsAsIs :=
       match component p with
       | TagName tag =>
           negb (set_has (allTagsSet html_elements svg_elements) tag)
       | ComponentRef _ _ _ => true
       end;
     props_vars :=
       match interpolations p with
       | [] => None
       | _ :: _ => Some (collect_vars (interpolations p))
       end |}.

End Props.

(** ** Rule extraction *)

(** Evaluated values, as far as [extractRules] looks at them.  Objects
    live in a heap, so that the [extends] links of the metadata can form
    any graph. *)
Inductive Value : Type :=
  | VUndefined
  | VNull
  | VPrimitive
  | VObject (l : positive).

(** [value.__wyw_meta] of a styled component: [{ className, extends }]. *)
Record StyledMeta : Type := {
  meta_className : string;
  meta_extends : Value;
}.

(** A heap object: it has a [__wyw_meta] property or not. *)
Record ObjectData : Type := {
  wyw_meta : option StyledMeta;
}.

(** Modelled from the spec: [hasEvalMeta] of [@wyw-in-js/shared], which
    holds of a value that carries the chain metadata
    [{ className, extends }]; the result is that metadata. *)
Definition hasEvalMeta (heap : gmap positive ObjectData) (v : Value)
    : option StyledMeta :=
  match v with
  | VObject l => heap !! l ≫= wyw_meta
  | _ => None
  end.

Record Position : Type := { line : nat; column : nat }.

Record SourceLocation : Type := {
  loc_start : Position;
  loc_end : Position;
}.

Record ICSSRule : Type := {
  rule_cssText : string;
  rule_className : string;
  rule_displayName : string;
  rule_start : option Position;
}.

(** The [while (hasEvalMeta(value))] loop; [None] when the fuel runs out
    before the loop ends. *)
Fixpoint selectorLoop (fuel : nat) (heap : gmap positive ObjectData)
    (selector : string) (v : Value) : option string :=
  match hasEvalMeta heap v with
  | None => Some selector
  | Some meta =>
      match fuel with
      | O => None
      | S fuel' =>
          selectorLoop fuel' heap
            (selector +:+ "." +:+ meta_className meta) (meta_extends meta)
      end
  end.

(** [valueCache.get(name)]. *)
Definition valueCache_get (valueCache : gmap string Value) (name : string)
    : Value :=
  default VUndefined (valueCache !! name).

(** The value [extractRules] starts the loop from. *)
Definition extendedValue (p : StyledProcessor)
    (valueCache : gmap string Value) : Value :=
  match component p with
  | TagName _ => VNull
  | ComponentRef node nonLinaria _ =>
      if nonLinaria then VNull else valueCache_get valueCache node
  end.

(** [extractRules]. *)
Definition extractRules (fuel : nat) (p : StyledProcessor)
    (heap : gmap positive ObjectData) (valueCache : gmap string Value)
    (cssText : string) (loc : option SourceLocation)
    : option (gmap string ICSSRule) :=
  selector ← selectorLoop fuel heap ("." +:+ className p)
                (extendedValue p valueCache);
  Some {[ selector :=
            {| rule_cssText := cssText;
               rule_className := className p;
               rule_displayName := displayName p;
               rule_start := loc_start <$> loc |} ]}.

(** One [extends] link between heap objects. *)
Definition extends_link (heap : gmap positive ObjectData) (l l' : positive)
    : Prop :=
  ∃ meta, hasEvalMeta heap (VObject l) = Some meta
          ∧ meta_extends meta = VObject l'.

(** No object reaches itself through [extends] links. *)
Definition acyclic (heap : gmap positive ObjectData) : Prop :=
  Irreflexive (tc (extends_link heap)).

(** The class names met from [v] along the [extends] links, outermost
    first, down to a value without metadata. *)
Inductive extends_chain (heap : gmap positive ObjectData)
    : Value → list string → Prop :=
  | chain_end v :
      hasEvalMeta heap v = None → extends_chain heap v []
  | chain_link v meta names :
      hasEvalMeta heap v = Some meta →
      extends_chain heap (meta_extends meta) names →
      extends_chain heap v (meta_className meta :: names).

(** [".a.b..."] for the class names [a], [b], ... *)
Definition class_segments (names : list string) : string :=
  foldr (λ name rest, "." +:+ name +:+ rest) "" names.

(** ** The interpolation validator *)

(** The values [throwIfInvalid] can be given.  Numbers are IEEE 754
    values; an object is the list of its properties. *)
Inductive JSValue : Type :=
  | JSUndefined
  | JSNull
  | JSBoolean (b : bool)
  | JSNumber (x : spec_float)
  | JSString (s : string)
  | JSFunction (name : string)
  | JSObject (properties : list (string * JSValue)).

Inductive JSType : Type :=
  | TUndefined | TObject | TBoolean | TNumber | TString | TFunction.

Definition typeof (v : JSValue) : JSType :=
  match v with
  | JSUndefined => TUndefined
  | JSNull => TObject
  | JSBoolean _ => TBoolean
  | JSNumber _ => TNumber
  | JSString _ => TString
  | JSFunction _ => TFunction
  | JSObject _ => TObject
  end.

Global Instance JSType_eq_dec : EqDecision JSType.
Proof. solve_decision. Defined.

(** [Number.isFinite]: a number that is neither NaN nor an infinity. *)
Definition Number_isFinite (v : JSValue) : bool :=
  match v with
  | JSNumber (S754_zero _) => true
  | JSNumber (S754_finite _ _ _) => true
  | _ => false
  end.

(** Truthiness of a value in a condition. *)
Definition truthy (v : JSValue) : bool :=
  match v with
  | JSUndefined => false
  | JSNull => false
  | JSBoolean b => b
  | JSNumber (S754_zero _) => false
  | JSNumber S754_nan => false
  | JSNumber _ => true
  | JSString s => truthy_string s
  | JSFunction _ => true
  | JSObject _ => true
  end.

(** [v.name] on a value that is neither [null] nor [undefined]; the first
    property of that name, [undefined] when there is none. *)
Definition get_property (v : JSValue) (name : string) : JSValue :=
  match v with
  | JSObject properties =>
      match find (λ kv, String.eqb kv.1 name) properties with
      | Some kv => kv.2
      | None => JSUndefined
      end
  | _ => JSUndefined
  end.

(** The two [throw] statements of [throwIfInvalid], each with the message
    given to [ex.buildCodeFrameError]. *)
Inductive CodeFrameError : Type :=
  | EvaluationError (message : string)
  | InvalidInterpolationError (message : string).

Definition number_NaN : JSValue := JSNumber S754_nan.
Definition number_Infinity : JSValue := JSNumber (S754_infinity false).
(** 42 as a binary64 value: [5910974510923776 * 2^-47]. *)
Definition number_42 : JSValue :=
  JSNumber (S754_finite false 5910974510923776 (-47)).

Section Validator.

(** External collaborators: the serializable predicate, the conversion
    of a value to a string that a template literal and [String] perform,
    [JSON.stringify], and the code [generator] prints for [ex.node]. *)
Variable isSerializable : JSValue → bool.
Variable toDisplayString : JSValue → string.
Variable JSON_stringify : JSValue → string.
Variable generator_code : Expression → string.

(** [`${v}`]: a string is itself. *)
Definition template_string (v : JSValue) : string :=
  match v with
  | JSString s => s
  | _ => toDisplayString v
  end.

(** The condition of the first [if]. *)
Definition accepted (v : JSValue) : bool :=
  bool_decide (typeof v = TFunction)
  || bool_decide (typeof v = TString)
  || (bool_decide (typeof v = TNumber) && Number_isFinite v)
  || isSerializable v.

(** The condition of the second [if]: duck typing of an error. *)
Definition error_like (v : JSValue) : bool :=
  truthy v
  && negb (bool_decide (typeof v = TNumber))
  && truthy (get_property v "stack")
  && truthy (get_property v "message").

Definition evaluation_message (v : JSValue) : string :=
  "An error occurred when evaluating the expression: "
  +:+ template_string (get_property v "message")
  +:+ ". Make sure you are not using a browser or Node specific API.".

Definition invalid_message (v : JSValue) (node : Expression) : string :=
  let stringified :=
    match typeof v with
    | TObject => JSON_stringify v
    | _ => template_string v
    end in
  "The expression evaluated to '" +:+ stringified
  +:+ "', which is probably a mistake. If you want it to be inserted "
  +:+ "into CSS, explicitly cast or transform the value to a string, "
  +:+ "e.g. - 'String(" +:+ generator_code node +:+ ")'.".

(** [throwIfInvalid]: [None] is a normal return. *)
Definition throwIfInvalid (v : JSValue) (node : Expression)
    : option CodeFrameError :=
  if accepted v then None
  else if error_like v then Some (EvaluationError (evaluation_message v))
  else Some (InvalidInterpolationError (invalid_message v node)).

End Validator.

(** [s] occurs in [t]. *)
Definition includes (t s : string) : Prop :=
  ∃ before after, t = before +:+ s +:+ after.

(** ** Predicates on instances *)

(** No custom id generator is configured. *)
Definition default_allocator (p : StyledProcessor) : Prop :=
  variableNameSlug (options p) = None.

(** An instance as the constructor leaves it: counter at zero, empty
    cache. *)
Definition fresh (p : StyledProcessor) : Prop :=
  variableIdx p = 0 ∧ variablesCache p = ∅.

(** The default id made from counter value [n]. *)
Definition default_id (p : StyledProcessor) (n : nat) : string :=
  slug p +:+ "-" +:+ pretty n.

(** Every cached id is a default id of a counter value already consumed,
    and no id is cached under two keys. *)
Record cache_ok (p : StyledProcessor) : Prop := {
  cache_bound : ∀ k id,
    variablesCache p !! k = Some id →
    ∃ n, n < variableIdx p ∧ id = default_id p n;
  cache_inj : ∀ k1 k2 id,
    variablesCache p !! k1 = Some id →
    variablesCache p !! k2 = Some id → k1 = k2;
}.

(** ** Example instances and environments *)

Definition example_options : Options :=
  {| extensions := [".js"; ".ts"]; variableNameSlug := None |}.

Definition example_base : BaseFields :=
  {| base_tagSource := "styled";
     base_className := "c1x2";
     base_displayName := "Title";
     base_slug := "t1abc";
     base_options := example_options;
     base_filename := Some "/app/src/Title.js" |}.

(** [styled.h1`...`] just constructed. *)
Definition example_processor : StyledProcessor :=
  build example_base (Identifier "styled") (TagName "h1") [].

Definition with_options (o : Options) (p : StyledProcessor)
  : StyledProcessor :=
  {| component := component p; className := className p;
     displayName := displayName p; slug := slug p; tagSource := tagSource p;
     callee := callee p; options := o; filename := filename p;
     dependencies := dependencies p; interpolations := interpolations p;
     variableIdx := variableIdx p; variablesCache := variablesCache p |}.

(** The same call site with [variableNameSlug: 'var'], a pattern that
    mentions no placeholder. *)
Definition pattern_processor : StyledProcessor :=
  with_options
    {| extensions := [".js"; ".ts"];
       variableNameSlug := Some (SlugPattern "var") |}
    example_processor.

(** A [buildSlug] for patterns without placeholders: the pattern itself. *)
Definition buildSlug_verbatim (pattern : string)
    (args : VariableContext * nat) : string := pattern.

Definition example_html_elements : list string :=
  ["a"; "div"; "h1"; "span"; "svg"].

Definition example_svg_elements : list string :=
  ["circle"; "path"; "svg"].

(** [styled.circle`...`] just constructed. *)
Definition circle_processor : StyledProcessor :=
  build example_base (Identifier "styled") (TagName "circle") [].

(** The evaluated values of a three-level chain: [A] is a styled
    intrinsic tag with class [a], and [B = styled(A)] has class [b]. *)
Definition three_level_heap (a b : string) : gmap positive ObjectData :=
  {[ 1%positive :=
       {| wyw_meta := Some {| meta_className := a; meta_extends := VNull |} |};
     2%positive :=
       {| wyw_meta :=
            Some {| meta_className := b; meta_extends := VObject 1 |} |} ]}.

Definition three_level_cache : gmap string Value :=
  {[ "A" := VObject 1; "B" := VObject 2 ]}.

(** [styled(B)`...`], the outermost component of the chain. *)
Definition outer_processor : StyledProcessor :=
  build example_base (Identifier "styled") (ComponentRef "B" false "B")
    [LazyValue "B" "B" None].

(** An environment in which the one manifest [/app/package.json] declares
    the mask [src/components/**] and module resolution finds nothing. *)
Definition example_findPackageJSON (name : string) (file : option string)
    : option string := Some "/app/package.json".

Definition example_readPackageJSON (path : string) : option PackageJSON :=
  Some {| linaria_components := Some "src/components/**" |}.

Definition example_dirname (path : string) : string := "/app".

Definition example_join (dir rest : string) : string := dir +:+ "/" +:+ rest.

Definition example_posixSlashes (path : string) : string := path.

Definition resolveSync_fails (name basedir : string) (exts : list string)
    : option string := None.

Definition example_minimatch (path mask : string) : bool := false.

(** [styled(Button)`...`] with [Button] imported from [./Button]. *)
Definition button_params : list Param :=
  [ CalleeParam (Identifier "styled");
    CallParam [LazyValue "Button" "Button" (Some ["./Button"])];
    TemplateParam [TemplateQuasi "color: red;"] ].

(** What evaluating [window.innerWidth] at build time hands over: an
    error object. *)
Definition reference_error : JSValue :=
  JSObject
    [ ("message", JSString "window is not defined");
      ("stack", JSString "ReferenceError: window is not defined at eval") ].

(** [new Error()]: the message is the empty string. *)
Definition empty_message_error : JSValue :=
  JSObject
    [ ("message", JSString ""); ("stack", JSString "Error at eval") ].

(** A serializable predicate that recognizes none of the values above. *)
Definition example_isSerializable (v : JSValue) : bool :=
  match v with
  | JSObject [] => true
  | _ => false
  end.

Definition example_toDisplayString (v : JSValue) : string :=
  match v with
  | JSNumber S754_nan => "NaN"
  | JSNumber (S754_infinity false) => "Infinity"
  | JSUndefined => "undefined"
  | _ => "[object Object]"
  end.

Definition example_JSON_stringify (v : JSValue) : string := "{}".

Definition example_generator_code (node : Expression) : string :=
  match node with
  | SourceNode code => code
  | _ => ""
  end.

(** ** Further operations of the instance *)

(** The [asSelector] getter. *)
Definition asSelector (p : StyledProcessor) : string := "." +:+ className p.

(** The fields no allocator call writes: everything but the counter, the
    cache and the interpolation list. *)
Definition same_call_site (p p' : StyledProcessor) : Prop :=
  component p' = component p
  ∧ className p' = className p
  ∧ displayName p' = displayName p
  ∧ slug p' = slug p
  ∧ tagSource p' = tagSource p
  ∧ callee p' = callee p
  ∧ options p' = options p
  ∧ filename p' = filename p
  ∧ dependencies p' = dependencies p.

(** One [addInterpolation] call: [(node, precedingCss, source, unit)]. *)
Definition Recording : Type := Expression * string * string * string.

(** The record [addInterpolation] pushes for a call that returned [id]. *)
Definition recorded (id : string) (c : Recording) : IInterpolation :=
  {| int_id := id; int_node := c.1.1.1;
     int_source := c.1.2; int_unit := c.2 |}.

Section Recordings.

Variable toValidCSSIdentifier : string → string.
Variable slugify : string → string.
Variable buildSlug : string → VariableContext * nat → string.

(** A sequence of [addInterpolation] calls on one instance, in order. *)
Fixpoint add_all (p : StyledProcessor) (cs : list Recording)
    : list string * StyledProcessor :=
  match cs with
  | [] => ([], p)
  | c :: cs' =>
      let '(id, p1) :=
        addInterpolation toValidCSSIdentifier slugify buildSlug
          p c.1.1.1 c.1.1.2 c.1.2 c.2 in
      let '(ids, p2) := add_all p1 cs' in
      (id :: ids, p2)
  end.

End Recordings.

(** A slug function that names a variable after its value and never
    reads [index]. *)
Definition value_slug_name (context : VariableContext) : string :=
  "v-" +:+ valueSlug context.

(** The example call site with that function as [variableNameSlug]. *)
Definition function_processor : StyledProcessor :=
  with_options
    {| extensions := [".js"; ".ts"];
       variableNameSlug :=
         Some (SlugFunction (λ context, SlugReturn (value_slug_name context))) |}
    example_processor.

(** Further environments: a manifest without [linaria.components], a
    manifest that cannot be read, a resolver that finds the module, and a
    matcher that accepts every path. *)
Definition readPackageJSON_no_mask (path : string) : option PackageJSON :=
  Some {| linaria_components := None |}.

Definition readPackageJSON_fails (path : string) : option PackageJSON := None.

Definition resolveSync_finds (name basedir : string) (exts : list string)
    : option string := Some (basedir +:+ "/src/components/Button.js").

Definition minimatch_all (path mask : string) : bool := true.

(** A manifest locator that tells the call site's own package from the
    packages under [node_modules]. *)
Definition findPackageJSON_by_name (name : string) (file : option string)
    : option string :=
  if String.eqb name "." || String.prefix "./" name
  then Some "/app/package.json"
  else Some ("/app/node_modules/" +:+ name +:+ "/package.json").

(** ** The two replacements *)

(** The value of a property of the [IProps] object, as
    [getTagComponentProps] tells values apart. *)
Inductive PropValue : Type :=
  | PropUndefined
  | PropNull
  | PropString (s : string)
  | PropBoolean (b : bool)
  | PropVars (vars : gmap string (list Expression)).

(** [Object.entries(props)] of the object [getProps] returns: the keys of
    the object literal in the order they are written, then [vars] when it
    was assigned. *)
Definition props_entries (props : IProps) : list (string * PropValue) :=
  [ ("name", PropString (props_name props));
    ("class", PropString (props_class props));
    ("propsAsIs", PropBoolean (props_propsAsIs props)) ]
  ++ match props_vars props with
     | Some vars => [("vars", PropVars vars)]
     | None => []
     end.

Section Replacement.

(** [Object.entries] on the [vars] object; the order in which a
    JavaScript object lists its keys is left to this collaborator. *)
Variable object_entries :
  gmap string (list Expression) → list (string * list Expression).

Variable html_elements svg_elements : list string.

(** The callback of [.map] in [getTagComponentProps]; [None] is the
    [null] that [.filter(isNotNull)] drops. *)
Definition tagComponentProp (entry : string * PropValue)
    : option (Expression * Expression) :=
  let keyNode := Identifier entry.1 in
  match entry.2 with
  | PropUndefined => None
  | PropNull => Some (keyNode, NullLiteral)
  | PropString s => Some (keyNode, stringLiteral s)
  | PropBoolean b => Some (keyNode, BooleanLiteral b)
  | PropVars vars =>
      Some (keyNode,
            ObjectExpression
              ((λ kv, (stringLiteral kv.1, ArrayExpression kv.2))
                 <$> object_entries vars))
  end.

(** [getTagComponentProps]. *)
Definition getTagComponentProps (entries : list (string * PropValue))
    : Expression :=
  ObjectExpression (omap tagComponentProp entries).

(** [doRuntimeReplacement]: the node and the flag handed to
    [this.replacer]. *)
Definition doRuntimeReplacement (p : StyledProcessor) : Expression * bool :=
  let props := getProps html_elements svg_elements p in
  (CallExpression (tagExpression p)
     [getTagComponentProps (props_entries props)],
   true).

End Replacement.

(** [doEvaltimeReplacement]: the node and the flag handed to
    [this.replacer]. *)
Definition doEvaltimeReplacement (p : StyledProcessor) : Expression * bool :=
  (value p, false).

(** An evaluated component whose metadata extends itself. *)
Definition looping_heap : gmap positive ObjectData :=
  {[ 1%positive :=
       {| wyw_meta :=
            Some {| meta_className := "x"; meta_extends := VObject 1 |} |} ]}.

Definition looping_cache : gmap string Value := {[ "B" := VObject 1 ]}.

(** The example call site after two interpolations recorded under one
    id. *)
Definition twice_recorded : StyledProcessor :=
  set_interpolations
    [ {| int_id := "t1abc-0"; int_node := Identifier "small";
         int_source := "size"; int_unit := "px" |};
      {| int_id := "t1abc-0"; int_node := Identifier "large";
         int_source := "size"; int_unit := "px" |} ]
    example_processor.

(** The template of [styled.div`color: ${x};`]. *)
Definition example_template : list TemplateElement :=
  [ TemplateQuasi "color: "; TemplateValue (LazyValue "x" "x" None);
    TemplateQuasi ";" ].

Definition div_params : list Param :=
  [ CalleeParam (Identifier "styled"); MemberParam "div";
    TemplateParam example_template ].

(** * Properties *)

(** ** The allocator *)

Section AllocatorFacts.

Variable toValidCSSIdentifier : string → string.
Variable slugify : string → string.
Variable buildSlug : string → VariableContext * nat → string.

Local Abbreviation allocate :=
  (getVariableId toValidCSSIdentifier slugify buildSlug).
Local Abbreviation allocate_seq :=
  (allocate_all toValidCSSIdentifier slugify buildSlug).

(** Without a custom generator the allocator is a cache lookup followed,
    on a miss, by one counter step and one cache insertion. *)
Lemma getVariableId_default p s u pc :
  default_allocator p →
  allocate p s u pc =
    match variablesCache p !! (s +:+ u) with
    | Some id => (id, p)
    | None =>
        (default_id p (variableIdx p),
         set_variablesCache
           (<[s +:+ u := default_id p (variableIdx p)]> (variablesCache p))
           (set_variableIdx (S (variableIdx p)) p))
    end.
Proof.
  intros Hd. unfold getVariableId, getCustomVariableId.
  rewrite Hd. by destruct (variablesCache p !! _).
Qed.

(** One call: the returned id is cached under the key afterwards, the
    cache only grows, and the configuration is untouched. *)
Lemma getVariableId_default_step p s u pc :
  default_allocator p →
  let r := allocate p s u pc in
  variablesCache r.2 !! (s +:+ u) = Some r.1
  ∧ variablesCache p ⊆ variablesCache r.2
  ∧ default_allocator r.2
  ∧ slug r.2 = slug p.
Proof.
  intros Hd. cbv zeta. rewrite getVariableId_default by done.
  destruct (variablesCache p !! (s +:+ u)) eqn:Hc; simpl.
  - done.
  - split_and!; [by rewrite lookup_insert_eq| |done|done].
    by apply insert_subseteq.
Qed.

Lemma getVariableId_default_ok p s u pc :
  default_allocator p → cache_ok p → cache_ok (allocate p s u pc).2.
Proof.
  intros Hd [Hb Hi]. rewrite getVariableId_default by done.
  destruct (variablesCache p !! (s +:+ u)) eqn:Hc; simpl; [done|].
  split; simpl.
  - intros k id. rewrite lookup_insert. case_decide as Hk.
    + intros [= <-]. exists (variableIdx p). split; [lia|done].
    + intros (n & ? & ->)%Hb. exists n. split; [lia|done].
  - intros k1 k2 id. rewrite !lookup_insert.
    repeat case_decide; subst; try done.
    + intros [= <-] (n & Hn & Heq)%Hb.
      unfold default_id in Heq. simplify_eq. lia.
    + intros (n & Hn & Heq)%Hb [= <-].
      unfold default_id in Heq. simplify_eq. lia.
    + apply Hi.
Qed.

(** A sequence of calls: the id returned by the call at position [i] is
    the id cached under that call's key when the sequence is over. *)
Lemma allocate_all_lookup rs : ∀ p,
  default_allocator p →
  ∀ i r, rs !! i = Some r →
    ∃ id, (allocate_seq p rs).1 !! i = Some id
          ∧ variablesCache (allocate_seq p rs).2 !! request_key r = Some id.
Proof.
  induction rs as [|r0 rs IH]; intros p Hd i r Hi; [done|].
  simpl.
  destruct (getVariableId_default_step p r0.1.1 r0.1.2 r0.2 Hd)
    as (Hc & Hsub & Hd1 & _).
  destruct (allocate p r0.1.1 r0.1.2 r0.2) as [id0 p1] eqn:E1.
  simpl in Hc, Hsub, Hd1.
  specialize (IH p1 Hd1).
  assert (variablesCache p1 ⊆ variablesCache (allocate_seq p1 rs).2)
    as Hmono.
  { clear -Hd1. revert p1 Hd1.
    induction rs as [|r1 rs IHrs]; intros p1 Hd1; [done|]. simpl.
    destruct (getVariableId_default_step p1 r1.1.1 r1.1.2 r1.2 Hd1)
      as (_ & Hs & Hd2 & _).
    destruct (allocate p1 r1.1.1 r1.1.2 r1.2) as [id1 p2].
    simpl in Hs, Hd2. specialize (IHrs p2 Hd2).
    destruct (allocate_seq p2 rs) as [ids p3]. simpl in *.
    by etrans. }
  destruct (allocate_seq p1 rs) as [ids p2] eqn:E2. simpl in *.
  destruct i as [|i]; simpl in *.
  - injection Hi as <-. exists id0. split; [done|].
    by eapply lookup_weaken.
  - by apply IH.
Qed.

Lemma allocate_all_ok rs : ∀ p,
  default_allocator p → cache_ok p →
  cache_ok (allocate_seq p rs).2 ∧ slug (allocate_seq p rs).2 = slug p.
Proof.
  induction rs as [|r0 rs IH]; intros p Hd Hok; [done|].
  simpl.
  pose proof (getVariableId_default_ok p r0.1.1 r0.1.2 r0.2 Hd Hok) as Hok1.
  destruct (getVariableId_default_step p r0.1.1 r0.1.2 r0.2 Hd)
    as (_ & _ & Hd1 & Hslug).
  destruct (allocate p r0.1.1 r0.1.2 r0.2) as [id0 p1]. simpl in *.
  destruct (IH p1 Hd1 Hok1) as [Hok2 Hslug2].
  destruct (allocate_seq p1 rs) as [ids p2]. simpl in *.
  split; [done|congruence].
Qed.

Lemma fresh_cache_ok p : fresh p → cache_ok p.
Proof.
  intros [_ Hc]. split; intros *; rewrite Hc, lookup_empty; done.
Qed.

(** Claim C5.  On an instance without a custom id generator, any two
    calls of a sequence of allocator calls that ask for the same source
    and unit return the identical id, whatever the calls in between and
    whatever the state the sequence starts from. *)
Theorem getVariableId_same_pair_same_id p rs i j ri rj :
  default_allocator p →
  rs !! i = Some ri →
  rs !! j = Some rj →
  ri.1 = rj.1 →
  let ids := (allocate_all toValidCSSIdentifier slugify buildSlug p rs).1 in
  ∃ id, ids !! i = Some id ∧ ids !! j = Some id.
Proof.
  intros Hd Hi Hj Heq ids. subst ids.
  destruct (allocate_all_lookup rs p Hd i ri Hi) as (id & Hidi & Hci).
  destruct (allocate_all_lookup rs p Hd j rj Hj) as (id' & Hidj & Hcj).
  exists id. split; [done|].
  unfold request_key in Hci, Hcj. rewrite Heq in Hci. congruence.
Qed.

(** On a fresh instance without a custom id generator, two calls whose
    keys [source + unit] differ return different ids, made from different
    counter values: no counter value is used for two keys. *)
Theorem getVariableId_distinct_keys_distinct_ids p rs i j ri rj :
  fresh p →
  default_allocator p →
  rs !! i = Some ri →
  rs !! j = Some rj →
  request_key ri ≠ request_key rj →
  let ids := (allocate_all toValidCSSIdentifier slugify buildSlug p rs).1 in
  ∃ ni nj,
    ids !! i = Some (default_id p ni)
    ∧ ids !! j = Some (default_id p nj)
    ∧ ni ≠ nj
    ∧ default_id p ni ≠ default_id p nj.
Proof.
  intros Hf Hd Hi Hj Hne ids. subst ids.
  destruct (allocate_all_lookup rs p Hd i ri Hi) as (idi & Hidi & Hci).
  destruct (allocate_all_lookup rs p Hd j rj Hj) as (idj & Hidj & Hcj).
  destruct (allocate_all_ok rs p Hd (fresh_cache_ok p Hf)) as [[Hb Hinj] Hs].
  destruct (Hb _ _ Hci) as (ni & _ & ->).
  destruct (Hb _ _ Hcj) as (nj & _ & ->).
  assert (default_id (allocate_seq p rs).2 ni
          ≠ default_id (allocate_seq p rs).2 nj) as Hids.
  { intros Heq. rewrite Heq in Hci. by specialize (Hinj _ _ _ Hci Hcj). }
  unfold default_id in *. rewrite Hs in *.
  exists ni, nj. split_and!; [done|done| |done].
  intros ->. done.
Qed.

(** A custom slug function that answers with a non-empty string: the
    sanitized answer is returned, the cache is not written, and the
    counter moves only by the reads of [index] the function made. *)
Lemma getVariableId_function_hit p fn s u pc :
  variableNameSlug (options p) = Some (SlugFunction fn) →
  variablesCache p !! (s +:+ u) = None →
  let run := runSlug (fn (getVariableContext slugify p s u pc)) p in
  truthy_string run.1 = true →
  allocate p s u pc = (toValidCSSIdentifier run.1, run.2).
Proof.
  intros Hfn Hc run Ht. unfold getVariableId, getCustomVariableId.
  rewrite Hc, Hfn. fold run. destruct run as [id p1]. simpl in *.
  by rewrite Ht.
Qed.

Lemma runSlug_cache r : ∀ p,
  variablesCache (runSlug r p).2 = variablesCache p
  ∧ variableIdx p ≤ variableIdx (runSlug r p).2.
Proof.
  induction r as [res|k IH]; intros p; simpl; [done|].
  destruct (IH (variableIdx p) (set_variableIdx (S (variableIdx p)) p))
    as [Hc Hi].
  simpl in *. split; [done|lia].
Qed.

(** A slug function that never reads [index] leaves the counter alone. *)
Lemma getVariableId_function_hit_no_read p fn s u pc id :
  variableNameSlug (options p) = Some (SlugFunction fn) →
  variablesCache p !! (s +:+ u) = None →
  fn (getVariableContext slugify p s u pc) = SlugReturn id →
  truthy_string id = true →
  allocate p s u pc = (toValidCSSIdentifier id, p).
Proof.
  intros Hfn Hc Hret Ht.
  rewrite (getVariableId_function_hit p fn) by (rewrite ?Hret; done).
  by rewrite Hret.
Qed.

(** Claim C7, at the failing input.  With a pattern configured as
    [variableNameSlug], a cache miss on which [buildSlug] yields a
    non-empty string returns the sanitized string and does not write the
    cache, but the counter has moved by one: the copy [{ ...context }]
    read the [index] accessor, whether or not the pattern mentions it. *)
Theorem getVariableId_pattern_consumes_index p pattern s u pc :
  variableNameSlug (options p) = Some (SlugPattern pattern) →
  truthy_string pattern = true →
  variablesCache p !! (s +:+ u) = None →
  let id :=
    buildSlug pattern (getVariableContext slugify p s u pc, variableIdx p) in
  truthy_string id = true →
  let r := getVariableId toValidCSSIdentifier slugify buildSlug p s u pc in
  r.1 = toValidCSSIdentifier id
  ∧ variablesCache r.2 = variablesCache p
  ∧ variableIdx r.2 = S (variableIdx p).
Proof.
  intros Hpat Htp Hc id Ht r. subst r.
  unfold getVariableId, getCustomVariableId.
  rewrite Hc, Hpat, Htp. simpl. fold id. by rewrite Ht.
Qed.

End AllocatorFacts.

Lemma getVariableId_same_pair_same_id_witness :
  ∃ id,
    (allocate_all (λ s, s) (λ s, s) buildSlug_verbatim example_processor
       [("size", "px", ""); ("color", "", "a:"); ("size", "px", "b:")]).1
      !! 0 = Some id
    ∧ (allocate_all (λ s, s) (λ s, s) buildSlug_verbatim example_processor
         [("size", "px", ""); ("color", "", "a:"); ("size", "px", "b:")]).1
        !! 2 = Some id.
Proof.
  apply (getVariableId_same_pair_same_id (λ s, s) (λ s, s) buildSlug_verbatim
           example_processor _ 0 2 ("size", "px", "") ("size", "px", "b:"));
    reflexivity.
Defined.

(** Claim C1, at the failing input.  The interpolations [${a}rem] and
    [${ar}em] are distinct (source, unit) pairs, but the cache key
    [source + unit] is ["arem"] for both: the default allocator returns
    the same id for the two, and the [vars] of the runtime wrapper keeps
    one entry, with the expression and the unit of the second. *)
Theorem getVariableId_pair_collision :
  ("a", "rem") ≠ ("ar", "em")
  ∧ (allocate_all (λ s, s) (λ s, s) buildSlug_verbatim example_processor
       [("a", "rem", "width: "); ("ar", "em", "height: ")]).1
    = ["t1abc-0"; "t1abc-0"]
  ∧ props_vars
      (getProps example_html_elements example_svg_elements
         (add_all (λ s, s) (λ s, s) buildSlug_verbatim example_processor
            [ (Identifier "a", "width: ", "a", "rem");
              (Identifier "ar", "height: ", "ar", "em") ]).2)
    = Some {[ "t1abc-0" :=
                [CallExpression (Identifier "ar") []; stringLiteral "em"] ]}.
Proof.
  split; [discriminate|]. split; vm_compute; reflexivity.
Qed.

Lemma getVariableId_distinct_keys_distinct_ids_witness :
  ∃ ni nj,
    (allocate_all (λ s, s) (λ s, s) buildSlug_verbatim example_processor
       [("a", "rem", ""); ("a", "em", "")]).1
      !! 0 = Some (default_id example_processor ni)
    ∧ (allocate_all (λ s, s) (λ s, s) buildSlug_verbatim example_processor
         [("a", "rem", ""); ("a", "em", "")]).1
        !! 1 = Some (default_id example_processor nj)
    ∧ ni ≠ nj
    ∧ default_id example_processor ni ≠ default_id example_processor nj.
Proof.
  apply (getVariableId_distinct_keys_distinct_ids (λ s, s) (λ s, s)
           buildSlug_verbatim example_processor _ 0 1
           ("a", "rem", "") ("a", "em", ""));
    [split; reflexivity|reflexivity|reflexivity|reflexivity|].
  vm_compute. discriminate.
Defined.

Lemma getVariableId_pattern_consumes_index_witness :
  (getVariableId (λ s, s) (λ s, s) buildSlug_verbatim
     pattern_processor "color" "" "").1 = "var"
  ∧ variablesCache
      (getVariableId (λ s, s) (λ s, s) buildSlug_verbatim
         pattern_processor "color" "" "").2 = variablesCache pattern_processor
  ∧ variableIdx
      (getVariableId (λ s, s) (λ s, s) buildSlug_verbatim
         pattern_processor "color" "" "").2 = 1.
Proof.
  apply (getVariableId_pattern_consumes_index (λ s, s) (λ s, s)
           buildSlug_verbatim pattern_processor "var" "color" "" "");
    reflexivity.
Defined.

(** ** The properties object of the runtime wrapper *)

Section PropsFacts.

Variable html_elements svg_elements : list string.

Local Abbreviation props := (getProps html_elements svg_elements).

(** The set answers [true] exactly on the names of [html.elements.html]:
    the names of [html.elements.svg] are inside one array element. *)
Lemma set_has_allTagsSet s :
  set_has (allTagsSet html_elements svg_elements) s = true
  ↔ s ∈ html_elements.
Proof.
  unfold set_has, allTagsSet. rewrite existsb_exists. split.
  - intros (e & [Hin|Hin]%in_app_or & He).
    + apply in_map_iff in Hin as (name & <- & Hin).
      apply String.eqb_eq in He as ->. by apply list_elem_of_In.
    + destruct Hin as [<-|[]]. done.
  - intros Hin%list_elem_of_In. exists (TagString s). split.
    + apply in_or_app. left. by apply in_map.
    + apply String.eqb_refl.
Qed.

(** What the code computes for [propsAsIs]. *)
Lemma getProps_propsAsIs_false p :
  props_propsAsIs (props p) = false
  ↔ ∃ tag, component p = TagName tag ∧ tag ∈ html_elements.
Proof.
  unfold getProps. simpl. destruct (component p) as [tag|node nl src].
  - rewrite negb_false_iff, set_has_allTagsSet. split.
    + intros Hin. by exists tag.
    + by intros (tag' & [= <-] & Hin).
  - split; [done|]. by intros (tag & [=] & _).
Qed.

(** Claim C3, at the failing input.  For an intrinsic tag that is one of
    the known SVG element names and not one of the HTML element names,
    [propsAsIs] is [true], where the claim wants [false]. *)
Theorem getProps_svg_tag_propsAsIs p tag :
  component p = TagName tag →
  tag ∈ svg_elements →
  tag ∉ html_elements →
  props_propsAsIs (getProps html_elements svg_elements p) = true.
Proof.
  intros Hc _ Hnot. apply not_false_iff_true.
  intros (tag' & Hc' & Hin)%getProps_propsAsIs_false.
  congruence.
Qed.

(** [propsAsIs] in the cases the claim and the code agree on. *)
Lemma getProps_propsAsIs_true p :
  (∀ node nl src, component p = ComponentRef node nl src →
     props_propsAsIs (props p) = true)
  ∧ (∀ tag, component p = TagName tag → tag ∉ html_elements →
       props_propsAsIs (props p) = true)
  ∧ (∀ tag, component p = TagName tag → tag ∈ html_elements →
       props_propsAsIs (props p) = false).
Proof.
  split_and!.
  - intros * Hc. unfold getProps. simpl. by rewrite Hc.
  - intros tag Hc Hnot. apply not_false_iff_true.
    intros (tag' & Hc' & Hin)%getProps_propsAsIs_false. congruence.
  - intros tag Hc Hin. apply getProps_propsAsIs_false. eauto.
Qed.

Lemma collect_vars_var_items l :
  collect_vars l = foldl (λ vars i, <[int_id i := var_items i]> vars) ∅ l.
Proof.
  unfold collect_vars. generalize (∅ : gmap string (list Expression)).
  induction l as [|i l IH]; intros acc; simpl; [done|].
  rewrite <- IH. do 2 f_equal.
  unfold var_items. by destruct (truthy_string (int_unit i)).
Qed.

Lemma foldl_vars_lookup l : ∀ (acc : gmap string (list Expression)) id items,
  foldl (λ vars i, <[int_id i := var_items i]> vars) acc l !! id
    = Some items →
  acc !! id = Some items
  ∨ ∃ i, i ∈ l ∧ int_id i = id ∧ items = var_items i.
Proof.
  induction l as [|i l IH]; intros acc id items; simpl; [by left|].
  intros [H|(i' & Hin & Hid & Hit)]%IH.
  - rewrite lookup_insert in H. case_decide as Hk.
    + injection H as <-. right. exists i.
      split; [apply elem_of_cons; by left|done].
    + by left.
  - right. exists i'. split; [apply elem_of_cons; by right|done].
Qed.

Lemma foldl_vars_keep l : ∀ (acc : gmap string (list Expression)) k,
  is_Some (acc !! k) →
  is_Some (foldl (λ vars i, <[int_id i := var_items i]> vars) acc l !! k).
Proof.
  induction l as [|i l IH]; intros acc k Hk; simpl; [done|].
  apply IH. rewrite lookup_insert. by case_decide.
Qed.

Lemma foldl_vars_dom l : ∀ (acc : gmap string (list Expression)) i,
  i ∈ l →
  is_Some
    (foldl (λ vars i, <[int_id i := var_items i]> vars) acc l !! int_id i).
Proof.
  induction l as [|i0 l IH]; intros acc i Hin; simpl.
  - by apply not_elem_of_nil in Hin.
  - apply elem_of_cons in Hin as [->|Hin]; [|by apply IH].
    apply foldl_vars_keep. by rewrite lookup_insert_eq.
Qed.

(** [vars] is there exactly when an interpolation was recorded. *)
Lemma getProps_vars_present p :
  props_vars (props p) = None ↔ interpolations p = [].
Proof. unfold getProps. simpl. by destruct (interpolations p). Qed.

(** The entries of [vars] are the recorded interpolations' items. *)
Lemma getProps_vars_entries p vars :
  props_vars (props p) = Some vars →
  (∀ i, i ∈ interpolations p → is_Some (vars !! int_id i))
  ∧ (∀ id items, vars !! id = Some items →
       ∃ i, i ∈ interpolations p ∧ int_id i = id ∧ items = var_items i).
Proof.
  unfold getProps. simpl.
  destruct (interpolations p) as [|i0 l] eqn:El; [done|].
  intros [= <-]. rewrite collect_vars_var_items. split.
  - intros i Hin. by apply foldl_vars_dom.
  - intros id items [H|H]%foldl_vars_lookup; [|done].
    by rewrite lookup_empty in H.
Qed.

Section Sharing.

Variable toValidCSSIdentifier : string → string.
Variable slugify : string → string.
Variable buildSlug : string → VariableContext * nat → string.

Local Abbreviation record :=
  (addInterpolation toValidCSSIdentifier slugify buildSlug).

(** What [addInterpolation] does to an instance without a custom
    generator. *)
Lemma addInterpolation_default p node pc s u :
  default_allocator p →
  let r := record p node pc s u in
  variablesCache r.2 !! (s +:+ u) = Some r.1
  ∧ default_allocator r.2
  ∧ interpolations r.2
    = interpolations p
      ++ [{| int_id := r.1; int_node := node;
             int_source := s; int_unit := u |}].
Proof.
  intros Hd. cbv zeta. unfold addInterpolation.
  rewrite getVariableId_default by done.
  by destruct (variablesCache p !! (s +:+ u)) eqn:Hc; simpl;
    rewrite ?lookup_insert_eq.
Qed.

(** A second interpolation with the source and unit of an earlier one
    hits the cache. *)
Lemma addInterpolation_cached p node pc s u id :
  variablesCache p !! (s +:+ u) = Some id →
  record p node pc s u
  = (id, set_interpolations
           (interpolations p
            ++ [{| int_id := id; int_node := node;
                   int_source := s; int_unit := u |}]) p).
Proof.
  intros Hc. unfold addInterpolation, getVariableId. by rewrite Hc.
Qed.

(** Claim C8.  [vars] is present exactly when an interpolation was
    recorded; every entry maps the id of a recorded interpolation to
    the call of its expression without arguments, followed by the unit
    string when the unit is not empty, and every recorded id has an
    entry; two interpolations recorded with the same source and unit
    on an instance without custom generator get one id and share one
    entry of [vars]. *)
Theorem getProps_vars :
  let getProps := getProps html_elements svg_elements in
  let addInterpolation :=
    addInterpolation toValidCSSIdentifier slugify buildSlug in
  (∀ p, props_vars (getProps p) = None ↔ interpolations p = [])
  ∧ (∀ p vars, props_vars (getProps p) = Some vars →
       (∀ i, i ∈ interpolations p → is_Some (vars !! int_id i))
       ∧ (∀ id items, vars !! id = Some items →
            ∃ i, i ∈ interpolations p ∧ int_id i = id
                 ∧ items
                   = CallExpression (int_node i) []
                     :: (if truthy_string (int_unit i)
                         then [stringLiteral (int_unit i)] else [])))
  ∧ (∀ p node1 node2 pc1 pc2 s u,
       default_allocator p →
       interpolations p = [] →
       let r1 := addInterpolation p node1 pc1 s u in
       let r2 := addInterpolation r1.2 node2 pc2 s u in
       r1.1 = r2.1
       ∧ props_vars (getProps r2.2)
         = Some {[ r1.1 :=
                     CallExpression node2 []
                     :: (if truthy_string u
                         then [stringLiteral u] else []) ]}).
Proof.
  cbv zeta. split_and!.
  - apply getProps_vars_present.
  - apply getProps_vars_entries.
  - intros p node1 node2 pc1 pc2 s u Hd Hnil. cbv zeta.
    destruct (addInterpolation_default p node1 pc1 s u Hd)
      as (Hc & Hd1 & Hi1).
    destruct (record p node1 pc1 s u) as [id1 p1]. simpl in *.
    rewrite (addInterpolation_cached p1 node2 pc2 s u id1 Hc). simpl.
    split; [done|].
    unfold getProps. simpl. rewrite Hi1, Hnil. simpl.
    rewrite collect_vars_var_items. simpl.
    by rewrite insert_insert_eq, insert_empty.
Qed.

End Sharing.

End PropsFacts.

Lemma getProps_svg_tag_propsAsIs_witness :
  props_propsAsIs
    (getProps example_html_elements example_svg_elements circle_processor)
  = true.
Proof.
  apply (getProps_svg_tag_propsAsIs example_html_elements
           example_svg_elements circle_processor "circle").
  - reflexivity.
  - unfold example_svg_elements. apply elem_of_cons. by left.
  - unfold example_html_elements. intros Hin.
    repeat (apply elem_of_cons in Hin as [Hin|Hin]; [discriminate|]).
    by apply not_elem_of_nil in Hin.
Defined.

Lemma getProps_vars_witness :
  (addInterpolation (λ s, s) (λ s, s) buildSlug_verbatim example_processor
     (Identifier "size") "width:" "size" "px").1
  = (addInterpolation (λ s, s) (λ s, s) buildSlug_verbatim
       (addInterpolation (λ s, s) (λ s, s) buildSlug_verbatim
          example_processor (Identifier "size") "width:" "size" "px").2
       (Identifier "size") "height:" "size" "px").1
  ∧ props_vars
      (getProps example_html_elements example_svg_elements
         (addInterpolation (λ s, s) (λ s, s) buildSlug_verbatim
            (addInterpolation (λ s, s) (λ s, s) buildSlug_verbatim
               example_processor (Identifier "size") "width:" "size" "px").2
            (Identifier "size") "height:" "size" "px").2)
    = Some
        {[ (addInterpolation (λ s, s) (λ s, s) buildSlug_verbatim
              example_processor (Identifier "size") "width:" "size" "px").1
           := [CallExpression (Identifier "size") []; stringLiteral "px"] ]}.
Proof.
  apply (proj2 (proj2 (getProps_vars example_html_elements
                         example_svg_elements (λ s, s) (λ s, s)
                         buildSlug_verbatim))
           example_processor (Identifier "size") (Identifier "size")
           "width:" "height:" "size" "px");
    reflexivity.
Defined.

(** ** Rule extraction *)

Lemma append_assoc (s1 s2 s3 : string) :
  (s1 +:+ s2) +:+ s3 = s1 +:+ s2 +:+ s3.
Proof.
  induction s1 as [|c s1 IH]; [reflexivity|].
  change (String c ((s1 +:+ s2) +:+ s3) = String c (s1 +:+ s2 +:+ s3)).
  by rewrite IH.
Qed.

Lemma append_empty_r (s : string) : s +:+ "" = s.
Proof.
  induction s as [|c s IH]; [reflexivity|].
  change (String c (s +:+ "") = String c s). by rewrite IH.
Qed.

Section RuleFacts.

Variable heap : gmap positive ObjectData.

(** The loop stops at once on a value without metadata. *)
Lemma selectorLoop_stop fuel selector v :
  hasEvalMeta heap v = None →
  selectorLoop fuel heap selector v = Some selector.
Proof. intros H. destruct fuel; simpl; by rewrite H. Qed.

(** Along a chain the loop appends one segment per link and ends, given
    one unit of fuel per link. *)
Lemma selectorLoop_chain v names :
  extends_chain heap v names →
  ∀ selector fuel, length names ≤ fuel →
    selectorLoop fuel heap selector v
    = Some (selector +:+ class_segments names).
Proof.
  induction 1 as [v Hend|v meta names Hmeta Hchain IH];
    intros selector fuel Hfuel.
  - rewrite selectorLoop_stop by done. simpl. by rewrite append_empty_r.
  - destruct fuel as [|fuel]; simpl in Hfuel; [lia|].
    simpl. rewrite Hmeta, IH by lia.
    by rewrite !append_assoc.
Qed.

(** The targets of the [extends] links of the heap. *)
Lemma extends_link_target l l' :
  extends_link heap l l' →
  l' ∈ omap (λ lo : positive * ObjectData,
               match wyw_meta lo.2 with
               | Some {| meta_extends := VObject t |} => Some t
               | _ => None
               end) (map_to_list heap).
Proof.
  intros (meta & Hmeta & Hext). simpl in Hmeta.
  destruct (heap !! l) as [o|] eqn:Hl; [|done]. simpl in Hmeta.
  apply list_elem_of_omap. exists (l, o). split.
  - by apply elem_of_map_to_list.
  - simpl. rewrite Hmeta. destruct meta as [c e]. simpl in Hext. by subst.
Qed.

Lemma tc_extends_link_target l l' :
  tc (extends_link heap) l l' → ∃ l0, extends_link heap l0 l'.
Proof. induction 1; eauto. Qed.

(** On an acyclic heap every object is in the accessible part of the
    [extends] links. *)
Lemma acyclic_sn l : acyclic heap → sn (extends_link heap) l.
Proof.
  intros Hacyc. apply tc_finite_sn; [done|].
  eexists. intros l' (l0 & Hl0)%tc_extends_link_target.
  by eapply extends_link_target.
Qed.

(** On an acyclic heap every value heads a finite chain. *)
Lemma acyclic_chain v : acyclic heap → ∃ names, extends_chain heap v names.
Proof.
  intros Hacyc.
  assert (∀ l, sn (extends_link heap) l →
               ∃ names, extends_chain heap (VObject l) names) as Hsn.
  { induction 1 as [l _ IH].
    destruct (hasEvalMeta heap (VObject l)) as [meta|] eqn:Hmeta.
    - destruct (meta_extends meta) as [| | |l'] eqn:Hext.
      1-3: exists [meta_className meta]; eapply chain_link; [done|];
           rewrite Hext; by apply chain_end.
      destruct (IH l') as [names Hnames].
      { by exists meta. }
      exists (meta_className meta :: names).
      eapply chain_link; [done|]. by rewrite Hext.
    - exists []. by apply chain_end. }
  destruct v as [| | |l]; try (exists []; by apply chain_end).
  apply Hsn. by apply acyclic_sn.
Qed.

(** A heap whose links all go down in some rank is acyclic. *)
Lemma acyclic_rank (rank : positive → nat) :
  (∀ l l', extends_link heap l l' → rank l' < rank l) → acyclic heap.
Proof.
  intros Hrank l Hl.
  assert (∀ x y, tc (extends_link heap) x y → rank y < rank x) as Htc.
  { induction 1 as [x y Hxy|x y z Hxy _ IH].
    - by apply Hrank.
    - apply Hrank in Hxy. lia. }
  apply Htc in Hl. lia.
Qed.

(** Claim C9.  When the [extends] links of the heap are acyclic, rule
    extraction ends: some amount of fuel is enough, and any larger amount
    gives the same rules; the loop stops as soon as the value it follows
    has no metadata. *)
Theorem extractRules_terminates p valueCache cssText loc :
  acyclic heap →
  (∃ fuel rules, ∀ n, fuel ≤ n →
     extractRules n p heap valueCache cssText loc = Some rules)
  ∧ (∀ n selector v, hasEvalMeta heap v = None →
       selectorLoop n heap selector v = Some selector).
Proof.
  intros Hacyc. split; [|intros; by apply selectorLoop_stop].
  destruct (acyclic_chain (extendedValue p valueCache) Hacyc)
    as [names Hnames].
  exists (length names). eexists. intros n Hn. unfold extractRules.
  by rewrite (selectorLoop_chain _ _ Hnames) by done.
Qed.

Lemma extends_link_det l l1 l2 :
  extends_link heap l l1 → extends_link heap l l2 → l1 = l2.
Proof. intros (m1 & H1 & E1) (m2 & H2 & E2). congruence. Qed.

Lemma extends_cycle_step l l' :
  extends_link heap l l' →
  tc (extends_link heap) l l → tc (extends_link heap) l' l'.
Proof.
  intros Hl Hc. inversion Hc as [x y Hxy|x y z Hxy Hyz]; subst.
  - by rewrite (extends_link_det _ _ _ Hl Hxy).
  - rewrite <- (extends_link_det _ _ _ Hl Hxy) in Hyz.
    by eapply tc_r.
Qed.

(** Without acyclicity the loop need not end: started on a cycle, it
    never does. *)
Lemma selectorLoop_cycle fuel : ∀ l selector,
  tc (extends_link heap) l l →
  selectorLoop fuel heap selector (VObject l) = None.
Proof.
  induction fuel as [|fuel IH]; intros l selector Hc.
  - inversion Hc as [x y (m & Hm & _)|x y z (m & Hm & _) _]; subst;
      simpl in *; by rewrite Hm.
  - assert (∃ l', extends_link heap l l') as [l' Hl].
    { inversion Hc; subst; eauto. }
    pose proof (extends_cycle_step _ _ Hl Hc) as Hc'.
    destruct Hl as (m & Hm & He). simpl in *. rewrite Hm, He.
    by apply IH.
Qed.

End RuleFacts.

Lemma three_level_chain a b :
  extends_chain (three_level_heap a b)
    (valueCache_get three_level_cache "B") [b; a].
Proof.
  eapply (chain_link _ _
            {| meta_className := b; meta_extends := VObject 1 |});
    [reflexivity|].
  eapply (chain_link _ _ {| meta_className := a; meta_extends := VNull |});
    [reflexivity|].
  by apply chain_end.
Qed.

Lemma three_level_acyclic a b : acyclic (three_level_heap a b).
Proof.
  apply (acyclic_rank _ Pos.to_nat). intros l l' (meta & Hm & He).
  unfold hasEvalMeta, three_level_heap in Hm.
  destruct (decide (l = 1%positive)) as [->|H1].
  { vm_compute in Hm. injection Hm as <-. discriminate. }
  destruct (decide (l = 2%positive)) as [->|H2].
  { vm_compute in Hm. injection Hm as <-. simpl in He.
    injection He as <-. vm_compute. lia. }
  rewrite lookup_insert_ne, lookup_singleton_ne in Hm by done.
  discriminate.
Qed.

(** Claim C2.  For a non-foreign component reference the selector is
    ["." + className] followed by one [".ancestorClassName"] per link of
    the chain of metadata found from the evaluated value of the referenced
    identifier, outermost first; for the three-level chain [A],
    [B = styled(A)] with class [b] and [styled(B)] with class [c] it is
    [".c.b.<A's className>"]. *)
Theorem extractRules_selector_chain :
  (∀ heap p valueCache cssText loc node source names fuel,
     component p = ComponentRef node false source →
     extends_chain heap (valueCache_get valueCache node) names →
     length names ≤ fuel →
     extractRules fuel p heap valueCache cssText loc
     = Some {[ "." +:+ className p +:+ class_segments names :=
                 {| rule_cssText := cssText;
                    rule_className := className p;
                    rule_displayName := displayName p;
                    rule_start := loc_start <$> loc |} ]})
  ∧ (∀ p a b c source cssText loc fuel,
       component p = ComponentRef "B" false source →
       className p = c →
       2 ≤ fuel →
       extractRules fuel p (three_level_heap a b) three_level_cache cssText loc
       = Some {[ "." +:+ c +:+ "." +:+ b +:+ "." +:+ a :=
                   {| rule_cssText := cssText;
                      rule_className := c;
                      rule_displayName := displayName p;
                      rule_start := loc_start <$> loc |} ]}).
Proof.
  assert (∀ heap p valueCache cssText loc node source names fuel,
     component p = ComponentRef node false source →
     extends_chain heap (valueCache_get valueCache node) names →
     length names ≤ fuel →
     extractRules fuel p heap valueCache cssText loc
     = Some {[ "." +:+ className p +:+ class_segments names :=
                 {| rule_cssText := cssText;
                    rule_className := className p;
                    rule_displayName := displayName p;
                    rule_start := loc_start <$> loc |} ]}) as Hgen.
  { intros heap p valueCache cssText loc node source names fuel Hc Hch Hf.
    unfold extractRules, extendedValue. rewrite Hc.
    rewrite (selectorLoop_chain heap _ names Hch) by done. simpl.
    by rewrite append_assoc. }
  split; [exact Hgen|].
  intros p a b c source cssText loc fuel Hc <- Hf.
  rewrite (Hgen _ p _ cssText loc "B" source [b; a] fuel Hc
             (three_level_chain a b) Hf).
  simpl. by rewrite append_empty_r.
Qed.

Lemma extractRules_selector_chain_witness :
  extractRules 2 outer_processor (three_level_heap "a" "b") three_level_cache
    "color: red;" None
  = Some {[ ".c1x2.b.a" :=
              {| rule_cssText := "color: red;";
                 rule_className := "c1x2";
                 rule_displayName := "Title";
                 rule_start := None |} ]}.
Proof.
  apply (proj2 extractRules_selector_chain outer_processor "a" "b" "c1x2"
           "B" "color: red;" None 2); [reflexivity|reflexivity|lia].
Defined.

Lemma extractRules_terminates_witness :
  ∃ fuel rules, ∀ n, fuel ≤ n →
    extractRules n outer_processor (three_level_heap "a" "b")
      three_level_cache "color: red;" None = Some rules.
Proof.
  apply (extractRules_terminates (three_level_heap "a" "b") outer_processor
           three_level_cache "color: red;" None).
  apply three_level_acyclic.
Defined.

(** ** Construction *)

Section ConstructorFacts.

Variable findPackageJSON : string → option string → option string.
Variable readPackageJSON : string → option PackageJSON.
Variable dirname : string → string.
Variable join : string → string → string.
Variable posixSlashes : string → string.
Variable resolveSync : string → string → list string → option string.
Variable minimatch : string → string → bool.

Local Abbreviation matched :=
  (isMatched findPackageJSON readPackageJSON dirname join posixSlashes
     resolveSync minimatch).
Local Abbreviation new :=
  (construct findPackageJSON readPackageJSON dirname join posixSlashes
     resolveSync minimatch).

(** An import whose manifest declares a mask and whose resolution
    throws: the callback logs one warning and answers [false]. *)
Lemma isMatched_unresolved opts file selfPkg source importedFrom
    pkg manifest mask :
  match findPackageJSON importedFrom file with
  | Some found => Some found
  | None => selfPkg
  end = Some pkg →
  truthy_string pkg = true →
  readPackageJSON pkg = Some manifest →
  linaria_components manifest = Some mask →
  truthy_string mask = true →
  try_resolve dirname resolveSync minimatch opts file importedFrom
    (posixSlashes (join (dirname pkg) mask)) = None →
  matched opts file selfPkg source importedFrom
  = ([resolve_warning importedFrom file source], Normal false).
Proof.
  intros Hpkg Htp Hread Hmask Htm Hres. unfold isMatched.
  rewrite Hpkg, Htp, Hread, Hmask. simpl. rewrite Htm.
  rewrite bool_decide_eq_false_2 by (by intros [_ ?]).
  by rewrite Hres.
Qed.

(** Claim C4, amended.  When resolution of the imported module throws
    while the allow-mask of its manifest is checked, nothing is thrown
    out of the constructor and one warning is logged; the import counts
    as not matching, so that a component imported from that one source
    becomes a foreign reference ([nonLinaria]) and is not registered as
    a dependency: the dependencies are those of the template alone. *)
Theorem construct_unresolved_import base tag ex source importedFrom quasis
    pkg manifest mask :
  let file := base_filename base in
  let selfPkg := findPackageJSON "." file in
  let warning := resolve_warning importedFrom file source in
  match findPackageJSON importedFrom file with
  | Some found => Some found
  | None => selfPkg
  end = Some pkg →
  truthy_string pkg = true →
  readPackageJSON pkg = Some manifest →
  linaria_components manifest = Some mask →
  truthy_string mask = true →
  try_resolve dirname resolveSync minimatch (base_options base) file
    importedFrom (posixSlashes (join (dirname pkg) mask)) = None →
  isMatched findPackageJSON readPackageJSON dirname join posixSlashes
    resolveSync minimatch (base_options base) file selfPkg source importedFrom
  = ([warning], Normal false)
  ∧ construct findPackageJSON readPackageJSON dirname join posixSlashes
      resolveSync minimatch
      [ CalleeParam tag;
        CallParam [LazyValue ex source (Some [importedFrom])];
        TemplateParam quasis ] base
    = ([warning],
       Normal (build base tag (ComponentRef ex true source)
                 (template_dependencies quasis))).
Proof.
  cbv zeta.
  intros Hpkg Htp Hread Hmask Htm Hres.
  pose proof (isMatched_unresolved (base_options base) (base_filename base)
                (findPackageJSON "." (base_filename base)) source
                importedFrom pkg manifest mask Hpkg Htp Hread Hmask Htm Hres)
    as Hm.
  split; [done|].
  unfold construct, construct_component, componentOfCall, isSomeMatched.
  rewrite Hm. simpl. by rewrite app_nil_r.
Qed.

(** Claim C10.  A call whose argument is the constant string
    ["FunctionalComponent"] is constructed into the very instance a call
    wrapping a function gets: the tag argument of the runtime wrapper is
    an empty arrow function, not the string literal, and [toString]
    shows [() => {…}], not the quoted name. *)
Theorem construct_FunctionalComponent_constant base tag ex ex' quasis :
  let construct :=
    construct findPackageJSON readPackageJSON dirname join posixSlashes
      resolveSync minimatch in
  let constant := ConstValue ex (ConstString "FunctionalComponent") in
  construct [CalleeParam tag; CallParam [constant]; TemplateParam quasis] base
  = construct
      [CalleeParam tag; CallParam [FunctionValue ex']; TemplateParam quasis]
      base
  ∧ ∃ p,
      construct
        [CalleeParam tag; CallParam [constant]; TemplateParam quasis] base
      = ([], Normal p)
      ∧ component p = TagName "FunctionalComponent"
      ∧ tagExpressionArgument p
        = ArrowFunctionExpression [] (BlockStatement [])
      ∧ tagExpressionArgument p
        ≠ singleQuotedStringLiteral "FunctionalComponent"
      ∧ toString p = base_tagSource base +:+ "(() => {…})`…`"
      ∧ toString p ≠ base_tagSource base +:+ "('FunctionalComponent')`…`".
Proof.
  cbv zeta.
  split; [reflexivity|].
  exists (build base tag (TagName "FunctionalComponent")
            (template_dependencies quasis ++ [])).
  split_and!; try reflexivity; try discriminate.
  unfold toString. simpl. intros H. simplify_eq.
Qed.

End ConstructorFacts.

(** Claim C4 as stated fails: in an environment where resolution throws,
    [styled(Button)] is constructed with [nonLinaria] set, that is as a
    foreign component and not as a styled one, and [Button] is not among
    the dependencies. *)
Lemma construct_unresolved_import_foreign :
  construct example_findPackageJSON example_readPackageJSON example_dirname
    example_join example_posixSlashes resolveSync_fails example_minimatch
    button_params example_base
  = ([resolve_warning "./Button" (Some "/app/src/Title.js") "Button"],
     Normal (build example_base (Identifier "styled")
               (ComponentRef "Button" true "Button") [])).
Proof. vm_compute. reflexivity. Qed.

Lemma construct_unresolved_import_witness :
  isMatched example_findPackageJSON example_readPackageJSON example_dirname
    example_join example_posixSlashes resolveSync_fails example_minimatch
    example_options (Some "/app/src/Title.js") (Some "/app/package.json")
    "Button" "./Button"
  = ([resolve_warning "./Button" (Some "/app/src/Title.js") "Button"],
     Normal false)
  ∧ construct example_findPackageJSON example_readPackageJSON example_dirname
      example_join example_posixSlashes resolveSync_fails example_minimatch
      button_params example_base
    = ([resolve_warning "./Button" (Some "/app/src/Title.js") "Button"],
       Normal (build example_base (Identifier "styled")
                 (ComponentRef "Button" true "Button") [])).
Proof.
  apply (construct_unresolved_import example_findPackageJSON
           example_readPackageJSON example_dirname example_join
           example_posixSlashes resolveSync_fails example_minimatch
           example_base (Identifier "styled") "Button" "Button" "./Button"
           [TemplateQuasi "color: red;"] "/app/package.json"
           {| linaria_components := Some "src/components/**" |}
           "src/components/**");
    reflexivity.
Defined.

(** ** The interpolation validator *)

Section ValidatorFacts.

Variable isSerializable : JSValue → bool.
Variable toDisplayString : JSValue → string.
Variable JSON_stringify : JSValue → string.
Variable generator_code : Expression → string.

Local Abbreviation validate :=
  (throwIfInvalid isSerializable toDisplayString JSON_stringify
     generator_code).
Local Abbreviation invalid :=
  (invalid_message toDisplayString JSON_stringify generator_code).
Local Abbreviation evaluation := (evaluation_message toDisplayString).

(** The validator returns exactly on functions, strings, finite numbers
    and serializable values. *)
Lemma throwIfInvalid_returns v node :
  validate v node = None
  ↔ typeof v = TFunction
    ∨ typeof v = TString
    ∨ (typeof v = TNumber ∧ Number_isFinite v = true)
    ∨ isSerializable v = true.
Proof.
  unfold throwIfInvalid, accepted.
  destruct (bool_decide (typeof v = TFunction)) eqn:Hf;
    [apply bool_decide_eq_true in Hf; simpl; tauto|].
  destruct (bool_decide (typeof v = TString)) eqn:Hs;
    [apply bool_decide_eq_true in Hs; simpl; tauto|].
  apply bool_decide_eq_false in Hf, Hs. simpl.
  destruct (bool_decide (typeof v = TNumber)) eqn:Hn; simpl.
  - apply bool_decide_eq_true in Hn.
    destruct (Number_isFinite v) eqn:Hfin; simpl; [tauto|].
    destruct (isSerializable v) eqn:Hser; [tauto|].
    split; [by destruct (error_like v)|].
    intros [?|[?|[[_ ?]|?]]]; done.
  - apply bool_decide_eq_false in Hn.
    destruct (isSerializable v) eqn:Hser; [tauto|].
    split; [by destruct (error_like v)|].
    intros [?|[?|[[? _]|?]]]; done.
Qed.

Lemma throwIfInvalid_string s node : validate (JSString s) node = None.
Proof. reflexivity. Qed.

Lemma throwIfInvalid_42 node : validate number_42 node = None.
Proof. reflexivity. Qed.

(** NaN and the infinities go to the second [throw], unless the
    serializable predicate recognizes them. *)
Lemma throwIfInvalid_not_finite v node :
  v = number_NaN ∨ v = number_Infinity →
  isSerializable v = false →
  validate v node = Some (InvalidInterpolationError (invalid v node)).
Proof.
  intros [-> | ->] Hser; unfold throwIfInvalid, accepted; simpl;
    by rewrite Hser.
Qed.

Lemma evaluation_message_includes v :
  includes (evaluation v) (template_string toDisplayString
                             (get_property v "message")).
Proof. unfold includes, evaluation_message. eauto. Qed.

(** A rejected value is an evaluation error exactly when the duck typing
    of the second [if] succeeds. *)
Lemma throwIfInvalid_rejected v node :
  validate v node ≠ None →
  validate v node
  = if error_like v
    then Some (EvaluationError (evaluation v))
    else Some (InvalidInterpolationError (invalid v node)).
Proof.
  unfold throwIfInvalid. destruct (accepted isSerializable v); [done|].
  by destruct (error_like v).
Qed.

Lemma error_like_fields v :
  typeof v ≠ TNumber →
  truthy (get_property v "stack") = true →
  truthy (get_property v "message") = true →
  error_like v = true.
Proof.
  intros Hn Hs Hm. unfold error_like. rewrite Hs, Hm.
  rewrite bool_decide_eq_false_2 by done.
  destruct v; try done; simpl in *; done.
Qed.

(** Claim C6, amended.  The validator returns normally exactly on
    functions, strings, finite numbers and values the serializable
    predicate recognizes; strings and 42 are accepted; NaN and Infinity,
    which the predicate does not recognize, are rejected as invalid
    interpolations; a rejected value that is not a number and whose
    [stack] and [message] properties are both truthy is rejected as an
    evaluation error whose text includes the message, and a rejected
    value with one of them missing or falsy as an invalid
    interpolation. *)
Theorem throwIfInvalid_spec :
  let throwIfInvalid :=
    throwIfInvalid isSerializable toDisplayString JSON_stringify
      generator_code in
  let invalid_message :=
    invalid_message toDisplayString JSON_stringify generator_code in
  let evaluation_message := evaluation_message toDisplayString in
  (∀ v node,
     throwIfInvalid v node = None
     ↔ typeof v = TFunction
       ∨ typeof v = TString
       ∨ (typeof v = TNumber ∧ Number_isFinite v = true)
       ∨ isSerializable v = true)
  ∧ (∀ s node, throwIfInvalid (JSString s) node = None)
  ∧ (∀ node, throwIfInvalid number_42 node = None)
  ∧ (∀ v node,
       v = number_NaN ∨ v = number_Infinity →
       isSerializable v = false →
       throwIfInvalid v node
       = Some (InvalidInterpolationError (invalid_message v node)))
  ∧ (∀ v node,
       throwIfInvalid v node ≠ None →
       typeof v ≠ TNumber →
       truthy (get_property v "stack") = true →
       truthy (get_property v "message") = true →
       throwIfInvalid v node
       = Some (EvaluationError (evaluation_message v))
       ∧ includes (evaluation_message v)
           (template_string toDisplayString (get_property v "message")))
  ∧ (∀ v node,
       throwIfInvalid v node ≠ None →
       truthy (get_property v "stack") = false
       ∨ truthy (get_property v "message") = false →
       throwIfInvalid v node
       = Some (InvalidInterpolationError (invalid_message v node))).
Proof.
  cbv zeta.
  split_and!.
  - apply throwIfInvalid_returns.
  - apply throwIfInvalid_string.
  - apply throwIfInvalid_42.
  - apply throwIfInvalid_not_finite.
  - intros v node Hrej Hn Hs Hm. split.
    + rewrite throwIfInvalid_rejected by done.
      by rewrite error_like_fields.
    + apply evaluation_message_includes.
  - intros v node Hrej Hfalsy. rewrite throwIfInvalid_rejected by done.
    unfold error_like.
    destruct Hfalsy as [-> | ->]; by rewrite ?andb_false_r.
Qed.

End ValidatorFacts.

(** Claim C6 as stated fails: an error object whose message is the empty
    string is not a number and has a [message] and a [stack] property, and
    it is rejected as an invalid interpolation, not as an evaluation
    error. *)
Lemma throwIfInvalid_empty_message :
  typeof empty_message_error ≠ TNumber
  ∧ get_property empty_message_error "message" = JSString ""
  ∧ get_property empty_message_error "stack" = JSString "Error at eval"
  ∧ throwIfInvalid example_isSerializable example_toDisplayString
      example_JSON_stringify example_generator_code
      empty_message_error (SourceNode "boom()")
    = Some
        (InvalidInterpolationError
           ("The expression evaluated to '{}', which is probably a "
            +:+ "mistake. If you want it to be inserted into CSS, "
            +:+ "explicitly cast or transform the value to a string, "
            +:+ "e.g. - 'String(boom())'.")).
Proof. split_and!; [discriminate|reflexivity..]. Qed.

Lemma throwIfInvalid_spec_witness :
  throwIfInvalid example_isSerializable example_toDisplayString
    example_JSON_stringify example_generator_code
    reference_error (SourceNode "window.innerWidth")
  = Some
      (EvaluationError
         (evaluation_message example_toDisplayString reference_error))
  ∧ includes (evaluation_message example_toDisplayString reference_error)
      "window is not defined".
Proof.
  apply (proj1 (proj2 (proj2 (proj2 (proj2
           (throwIfInvalid_spec example_isSerializable
              example_toDisplayString example_JSON_stringify
              example_generator_code)))))
           reference_error (SourceNode "window.innerWidth"));
    [discriminate|discriminate|reflexivity|reflexivity].
Defined.

(** * Further properties *)

(** ** The allocator under any configuration *)

Section AllocatorFrame.

Variable toValidCSSIdentifier : string → string.
Variable slugify : string → string.
Variable buildSlug : string → VariableContext * nat → string.

Lemma same_call_site_refl p : same_call_site p p.
Proof. by repeat split. Qed.

Lemma same_call_site_trans p1 p2 p3 :
  same_call_site p1 p2 → same_call_site p2 p3 → same_call_site p1 p3.
Proof.
  unfold same_call_site. intros H12 H23. destruct_and!.
  repeat split; congruence.
Qed.

Lemma runSlug_frame r : ∀ p,
  same_call_site p (runSlug r p).2
  ∧ interpolations (runSlug r p).2 = interpolations p.
Proof.
  induction r as [res|k IH]; intros p; simpl.
  - split; [apply same_call_site_refl|done].
  - destruct (IH (variableIdx p) (set_variableIdx (S (variableIdx p)) p))
      as [Hs Hi].
    split; [|done]. eapply same_call_site_trans; [|exact Hs].
    by repeat split.
Qed.

Lemma getCustomVariableId_frame p s u pc :
  let r := getCustomVariableId slugify buildSlug p s u pc in
  same_call_site p r.2
  ∧ interpolations r.2 = interpolations p
  ∧ variablesCache r.2 = variablesCache p
  ∧ variableIdx p ≤ variableIdx r.2.
Proof.
  cbv zeta. unfold getCustomVariableId.
  destruct (variableNameSlug (options p)) as [[fn|pattern]|].
  - pose proof (runSlug_frame
                  (fn (getVariableContext slugify p s u pc)) p) as [Hs Hi].
    pose proof (runSlug_cache
                  (fn (getVariableContext slugify p s u pc)) p) as [Hc Hn].
    by destruct (runSlug _ p).
  - destruct (truthy_string pattern); simpl.
    + split_and!; [by repeat split|done|done|lia].
    + split_and!; [apply same_call_site_refl|done|done|lia].
  - simpl. split_and!; [apply same_call_site_refl|done|done|lia].
Qed.

Lemma getVariableId_writes p s u pc :
  let r := getVariableId toValidCSSIdentifier slugify buildSlug p s u pc in
  same_call_site p r.2
  ∧ interpolations r.2 = interpolations p
  ∧ variableIdx p ≤ variableIdx r.2
  ∧ variablesCache p ⊆ variablesCache r.2
  ∧ (∀ k, k ≠ s +:+ u → variablesCache r.2 !! k = variablesCache p !! k).
Proof.
  cbv zeta. unfold getVariableId.
  destruct (variablesCache p !! (s +:+ u)) as [cached|] eqn:Hc.
  { simpl. split_and!; [apply same_call_site_refl|done|lia|done|done]. }
  destruct (getCustomVariableId_frame p s u pc) as (Hs & Hi & Hcache & Hn).
  destruct (getCustomVariableId slugify buildSlug p s u pc) as [id p1].
  simpl in *. destruct (truthy_opt id); simpl.
  - split_and!; [done|done|lia|by rewrite Hcache|by rewrite Hcache].
  - split_and!; [|done|lia| |].
    + eapply same_call_site_trans; [exact Hs|]. by repeat split.
    + rewrite Hcache. apply insert_subseteq. done.
    + intros k Hk. by rewrite lookup_insert_ne, Hcache.
Qed.

(** Whatever id generator is configured, one allocator call writes nothing
    but the counter and the cache: the counter never goes down, no cached
    id is removed or replaced, and only the entry of the requested key can
    be added. *)
Theorem getVariableId_frame p s u pc :
  let r := getVariableId toValidCSSIdentifier slugify buildSlug p s u pc in
  same_call_site p r.2
  ∧ interpolations r.2 = interpolations p
  ∧ variableIdx p ≤ variableIdx r.2
  ∧ variablesCache p ⊆ variablesCache r.2
  ∧ (∀ k, k ≠ s +:+ u → variablesCache r.2 !! k = variablesCache p !! k).
Proof. apply getVariableId_writes. Qed.

(** [addInterpolation] pushes one record per call, in call order, under
    the id the call returned; earlier records are never touched. *)
Theorem add_all_records cs : ∀ p,
  let r := add_all toValidCSSIdentifier slugify buildSlug p cs in
  length r.1 = length cs
  ∧ interpolations r.2 = interpolations p ++ zip_with recorded r.1 cs
  ∧ same_call_site p r.2.
Proof.
  induction cs as [|c cs IH]; intros p; simpl.
  { split_and!; [done|by rewrite app_nil_r|apply same_call_site_refl]. }
  unfold addInterpolation.
  destruct (getVariableId_writes p c.1.2 c.2 c.1.1.2) as (Hs & Hi & _).
  destruct (getVariableId toValidCSSIdentifier slugify buildSlug
              p c.1.2 c.2 c.1.1.2) as [id p1].
  simpl in Hs, Hi.
  specialize (IH (set_interpolations
                    (interpolations p1 ++
                       [{| int_id := id; int_node := c.1.1.1;
                           int_source := c.1.2; int_unit := c.2 |}]) p1)).
  cbv zeta in IH. destruct IH as (Hlen & Hint & Hsite).
  destruct (add_all _ _ _ _ cs) as [ids p2]. simpl in *.
  split_and!.
  - by rewrite Hlen.
  - rewrite Hint, Hi, <- app_assoc. done.
  - eapply same_call_site_trans; [exact Hs|].
    eapply same_call_site_trans; [|exact Hsite]. by repeat split.
Qed.

End AllocatorFrame.

(** ** Sequences of allocator calls *)

Section AllocatorCounting.

Variable toValidCSSIdentifier : string → string.
Variable slugify : string → string.
Variable buildSlug : string → VariableContext * nat → string.

Local Abbreviation allocate :=
  (getVariableId toValidCSSIdentifier slugify buildSlug).
Local Abbreviation allocate_seq :=
  (allocate_all toValidCSSIdentifier slugify buildSlug).

Lemma allocate_all_length rs : ∀ p, length (allocate_seq p rs).1 = length rs.
Proof.
  induction rs as [|r0 rs IH]; intros p; simpl; [done|].
  destruct (allocate p r0.1.1 r0.1.2 r0.2) as [id0 p1].
  specialize (IH p1). destruct (allocate_seq p1 rs). simpl in *. by rewrite IH.
Qed.

Lemma allocate_all_count rs : ∀ p,
  default_allocator p →
  variableIdx (allocate_seq p rs).2 + size (variablesCache p)
  = variableIdx p + size (variablesCache (allocate_seq p rs).2)
  ∧ dom (variablesCache (allocate_seq p rs).2)
    =@{gset string}
    dom (variablesCache p) ∪ list_to_set (request_key <$> rs).
Proof.
  induction rs as [|r0 rs IH]; intros p Hd; simpl.
  { split; [lia|set_solver]. }
  pose proof (getVariableId_default toValidCSSIdentifier slugify buildSlug
                p r0.1.1 r0.1.2 r0.2 Hd) as E.
  destruct (getVariableId_default_step toValidCSSIdentifier slugify buildSlug
              p r0.1.1 r0.1.2 r0.2 Hd) as (_ & _ & Hd1 & _).
  destruct (allocate p r0.1.1 r0.1.2 r0.2) as [id0 p1]. simpl in Hd1.
  destruct (IH p1 Hd1) as [Hn Hdom].
  destruct (allocate_seq p1 rs) as [ids p2]. simpl in *.
  rewrite Hdom. unfold request_key at 2.
  destruct (variablesCache p !! (r0.1.1 +:+ r0.1.2)) as [cached|] eqn:Hc;
    injection E as -> ->.
  - split; [done|].
    assert (r0.1.1 +:+ r0.1.2 ∈ dom (variablesCache p))
      by (apply elem_of_dom; eauto).
    set_solver.
  - simpl in *. rewrite map_size_insert_None in Hn by done.
    split; [lia|]. rewrite dom_insert_L. set_solver.
Qed.

(** On a fresh instance without custom generator the counter counts the
    distinct keys asked for: after any sequence of calls it equals the
    size of the cache, the cached keys are exactly the keys requested, and
    every id handed out is made from a counter value below it. *)
Theorem allocate_all_counter p rs :
  fresh p →
  default_allocator p →
  let r := allocate_all toValidCSSIdentifier slugify buildSlug p rs in
  variableIdx r.2 = size (variablesCache r.2)
  ∧ dom (variablesCache r.2) =@{gset string} list_to_set (request_key <$> rs)
  ∧ (∀ id, id ∈ r.1 → ∃ n, n < variableIdx r.2 ∧ id = default_id p n).
Proof.
  intros Hf Hd r. subst r.
  destruct (allocate_all_count rs p Hd) as [Hn Hdom].
  destruct Hf as [Hidx Hcache]. rewrite Hidx, Hcache in *.
  rewrite map_size_empty in Hn. rewrite dom_empty_L in Hdom.
  split_and!; [lia|set_solver|].
  intros id (i & Hi)%list_elem_of_lookup.
  assert (i < length rs) as (r0 & Hr0)%lookup_lt_is_Some.
  { rewrite <- (allocate_all_length rs p). by eapply lookup_lt_Some. }
  destruct (allocate_all_lookup toValidCSSIdentifier slugify buildSlug
              rs p Hd i r0 Hr0) as (id' & Hid' & Hc).
  assert (id' = id) as -> by congruence.
  destruct (allocate_all_ok toValidCSSIdentifier slugify buildSlug rs p Hd)
    as [[Hb _] Hslug].
  { apply fresh_cache_ok. by split. }
  destruct (Hb _ _ Hc) as (n & Hlt & ->).
  exists n. split; [done|]. unfold default_id. by rewrite Hslug.
Qed.

Lemma getVariableId_pattern_hit p pattern s u pc :
  variableNameSlug (options p) = Some (SlugPattern pattern) →
  truthy_string pattern = true →
  (∀ args, truthy_string (buildSlug pattern args) = true) →
  variablesCache p = ∅ →
  allocate p s u pc
  = (toValidCSSIdentifier
       (buildSlug pattern
          (getVariableContext slugify p s u pc, variableIdx p)),
     set_variableIdx (S (variableIdx p)) p).
Proof.
  intros Hpat Htp Hall Hc. unfold getVariableId, getCustomVariableId.
  rewrite Hc, lookup_empty, Hpat, Htp. simpl. by rewrite Hall.
Qed.

(** With a pattern as [variableNameSlug] that never yields the empty
    string, the cache stays empty and every call takes one counter value:
    the call at position [i] is given index [variableIdx p + i], and after
    [n] calls the counter has moved by [n]. *)
Theorem allocate_all_pattern pattern rs : ∀ p,
  variableNameSlug (options p) = Some (SlugPattern pattern) →
  truthy_string pattern = true →
  (∀ args, truthy_string (buildSlug pattern args) = true) →
  variablesCache p = ∅ →
  let r := allocate_all toValidCSSIdentifier slugify buildSlug p rs in
  r.1 = imap (λ i req,
                toValidCSSIdentifier
                  (buildSlug pattern
                     (getVariableContext slugify p req.1.1 req.1.2 req.2,
                      variableIdx p + i))) rs
  ∧ variablesCache r.2 = ∅
  ∧ variableIdx r.2 = variableIdx p + length rs.
Proof.
  induction rs as [|r0 rs IH]; intros p Hpat Htp Hall Hc; simpl.
  { split_and!; [done|done|lia]. }
  rewrite (getVariableId_pattern_hit p pattern) by done.
  specialize (IH (set_variableIdx (S (variableIdx p)) p) Hpat Htp Hall Hc).
  cbv zeta in IH. destruct IH as (Hids & Hcache & Hidx).
  destruct (allocate_seq _ rs) as [ids p2]. simpl in *.
  split_and!; [|done|lia].
  rewrite Nat.add_0_r, Hids. f_equal.
  apply imap_ext. intros i req _. simpl.
  do 3 f_equal. lia.
Qed.

(** With a slug function that never reads [index] and never returns the
    empty string, no call changes the instance at all: every id is the
    sanitized answer of the function and nothing is ever cached. *)
Theorem allocate_all_pure_function name rs p :
  variableNameSlug (options p)
  = Some (SlugFunction (λ context, SlugReturn (name context))) →
  (∀ context, truthy_string (name context) = true) →
  variablesCache p = ∅ →
  allocate_all toValidCSSIdentifier slugify buildSlug p rs
  = (map (λ req,
            toValidCSSIdentifier
              (name (getVariableContext slugify p req.1.1 req.1.2 req.2)))
       rs, p).
Proof.
  intros Hfn Hall Hc. induction rs as [|r0 rs IH]; simpl; [done|].
  rewrite (getVariableId_function_hit_no_read toValidCSSIdentifier slugify
             buildSlug p _ r0.1.1 r0.1.2 r0.2
             (name (getVariableContext slugify p r0.1.1 r0.1.2 r0.2)) Hfn);
    [|by rewrite Hc, lookup_empty|done|done].
  by rewrite IH.
Qed.

End AllocatorCounting.

Lemma allocate_all_counter_witness :
  variableIdx
    (allocate_all (λ s, s) (λ s, s) buildSlug_verbatim example_processor
       [("size", "px", ""); ("color", "", "a:"); ("size", "px", "b:")]).2
  = size
      (variablesCache
         (allocate_all (λ s, s) (λ s, s) buildSlug_verbatim example_processor
            [("size", "px", ""); ("color", "", "a:"); ("size", "px", "b:")]).2).
Proof.
  apply (allocate_all_counter (λ s, s) (λ s, s) buildSlug_verbatim
           example_processor
           [("size", "px", ""); ("color", "", "a:"); ("size", "px", "b:")]);
    [split; reflexivity|reflexivity].
Defined.

Lemma allocate_all_pattern_witness :
  variableIdx
    (allocate_all (λ s, s) (λ s, s) buildSlug_verbatim pattern_processor
       [("size", "px", ""); ("size", "px", "")]).2 = 2.
Proof.
  apply (allocate_all_pattern (λ s, s) (λ s, s) buildSlug_verbatim "var"
           [("size", "px", ""); ("size", "px", "")] pattern_processor);
    reflexivity.
Defined.

Lemma allocate_all_pure_function_witness :
  allocate_all (λ s, s) (λ s, s) buildSlug_verbatim function_processor
    [("size", "px", ""); ("size", "px", "")]
  = (["v-sizepx"; "v-sizepx"], function_processor).
Proof.
  apply (allocate_all_pure_function (λ s, s) (λ s, s) buildSlug_verbatim
           value_slug_name [("size", "px", ""); ("size", "px", "")]
           function_processor); reflexivity.
Defined.

(** ** Construction: outcomes, warnings and dependencies *)

Section ConstructorOutcomes.

Variable findPackageJSON : string → option string → option string.
Variable readPackageJSON : string → option PackageJSON.
Variable dirname : string → string.
Variable join : string → string → string.
Variable posixSlashes : string → string.
Variable resolveSync : string → string → list string → option string.
Variable minimatch : string → string → bool.

Local Abbreviation matched :=
  (isMatched findPackageJSON readPackageJSON dirname join posixSlashes
     resolveSync minimatch).
Local Abbreviation some_matched :=
  (isSomeMatched findPackageJSON readPackageJSON dirname join posixSlashes
     resolveSync minimatch).
Local Abbreviation of_call :=
  (componentOfCall findPackageJSON readPackageJSON dirname join posixSlashes
     resolveSync minimatch).
Local Abbreviation new :=
  (construct findPackageJSON readPackageJSON dirname join posixSlashes
     resolveSync minimatch).

(** The callback logs nothing, or the one warning of a failed resolution
    together with the answer [false]; it throws only manifest errors. *)
Lemma isMatched_cases opts file selfPkg source i :
  (∃ b, matched opts file selfPkg source i = ([], Normal b))
  ∨ matched opts file selfPkg source i
    = ([resolve_warning i file source], Normal false)
  ∨ ∃ pkg, matched opts file selfPkg source i = ([], Throw (ManifestError pkg)).
Proof.
  unfold isMatched. repeat case_match; eauto.
Qed.

Lemma isSomeMatched_cases opts file selfPkg source imps :
  ∃ w r, some_matched opts file selfPkg source imps = (w, r)
    ∧ w `sublist_of` ((λ i, resolve_warning i file source) <$> imps)
    ∧ ((∃ b, r = Normal b) ∨ ∃ pkg, r = Throw (ManifestError pkg)).
Proof.
  induction imps as [|i imps IH]; simpl.
  { exists [], (Normal false). split_and!; [done|done|eauto]. }
  destruct IH as (w' & r' & E' & Hsub & Hr). rewrite E'.
  destruct (isMatched_cases opts file selfPkg source i)
    as [[[|] E]|[E|[pkg E]]]; rewrite E.
  - exists [], (Normal true).
    split_and!; [done|apply sublist_nil_l|eauto].
  - exists w', r'. split_and!; [done|by apply sublist_cons|done].
  - exists (resolve_warning i file source :: w'), r'.
    split_and!; [done|by apply sublist_skip|done].
  - exists [], (Throw (ManifestError pkg)).
    split_and!; [done|apply sublist_nil_l|eauto].
Qed.

(** [some] stops at the first import source that matches: the sources
    after it are not looked at, so they add no warning and no manifest
    of theirs is read. *)
Theorem isSomeMatched_short_circuit opts file selfPkg source
    before i after :
  let isMatched :=
    isMatched findPackageJSON readPackageJSON dirname join posixSlashes
      resolveSync minimatch opts file selfPkg source in
  let isSomeMatched :=
    isSomeMatched findPackageJSON readPackageJSON dirname join posixSlashes
      resolveSync minimatch opts file selfPkg source in
  (∀ b, b ∈ before → (isMatched b).2 = Normal false) →
  (isMatched i).2 = Normal true →
  isSomeMatched (before ++ i :: after) = isSomeMatched (before ++ [i])
  ∧ (isSomeMatched (before ++ i :: after)).2 = Normal true.
Proof.
  cbv zeta.
  intros Hbefore Hi. induction before as [|b before IH]; simpl.
  - destruct (matched opts file selfPkg source i) as [w r]. simpl in Hi.
    by subst r.
  - destruct IH as [IH1 IH2].
    { intros b' Hb'. apply Hbefore, elem_of_cons. by right. }
    specialize (Hbefore b (proj2 (elem_of_cons _ _ _) (or_introl eq_refl))).
    destruct (matched opts file selfPkg source b) as [w r]. simpl in Hbefore.
    subst r. rewrite IH1.
    destruct (some_matched opts file selfPkg source (before ++ i :: after))
      as [w1 r1].
    destruct (some_matched opts file selfPkg source (before ++ [i]))
      as [w2 r2].
    simpl in *. by simplify_eq.
Qed.

Lemma componentOfCall_cases opts file v :
  ∃ w r, of_call opts file v = (w, r)
    ∧ match r with
      | Normal (Some (ComponentRef ex false src), deps) =>
          ∃ imps, v = LazyValue ex src imps ∧ deps = [v]
      | Normal (Some (ComponentRef ex true src), deps) =>
          ∃ imps, v = LazyValue ex src (Some imps) ∧ deps = []
      | Normal (_, deps) => deps = []
      | Throw e => ∃ pkg, e = ManifestError pkg
      end
    ∧ (w = []
       ∨ ∃ ex src imps,
           v = LazyValue ex src (Some imps)
           ∧ w `sublist_of` ((λ i, resolve_warning i file src) <$> imps)).
Proof.
  destruct v as [ex|ex c|ex src imps]; unfold componentOfCall;
    cbn -[isSomeMatched].
  - eexists _, _. split; [done|]. split; [done|by left].
  - destruct c; eexists _, _; (split; [done|]); (split; [done|by left]).
  - destruct imps as [[|i rest]|]; cbn -[isSomeMatched];
      try (eexists _, _; split; [done|]; split; [eauto|by left]).
    destruct (isSomeMatched_cases opts file (findPackageJSON "." file) src
                (i :: rest)) as (w & r & E & Hsub & Hr).
    rewrite E. destruct Hr as [[[|] ->]|[pkg ->]].
    + eexists _, _. split; [done|]. split; [eauto|]. right. eauto 10.
    + eexists _, _. split; [done|]. split; [eauto|]. right. eauto 10.
    + eexists _, _. split; [done|]. split; [eauto|]. right. eauto 10.
Qed.

(** The parameter lists the two [validateParams] calls let through. *)
Lemma construct_shapes params base :
  (∃ tag m q, params = [CalleeParam tag; MemberParam m; TemplateParam q]
     ∧ new params base
       = ([], if truthy_string m
              then Normal (build base tag (TagName m)
                             (template_dependencies q))
              else Throw (Error invalid_usage)))
  ∨ (∃ tag v q, params = [CalleeParam tag; CallParam [v]; TemplateParam q]
       ∧ new params base
         = construct_component findPackageJSON readPackageJSON dirname join
             posixSlashes resolveSync minimatch base tag (CallParam [v]) q)
  ∨ (new params base = ([], Throw SKIP))
  ∨ (new params base = ([], Throw (Error invalid_usage))).
Proof.
  destruct params as [|[tag| | |] [|op [|template [|extra rest]]]];
    try (right; right; left; reflexivity).
  - destruct op as [|args|m|], template as [|args'| |q];
      try (right; right; right; reflexivity);
      try (right; right; left; reflexivity).
    + destruct args as [|v [|v' args]].
      * right; right; right; reflexivity.
      * right; left. eauto.
      * right; right; right; reflexivity.
    + left. exists tag, m, q. split; [done|].
      simpl. unfold construct_component. simpl.
      rewrite app_nil_r. by destruct m.
  - destruct op, template; right; right; right; reflexivity.
Qed.


(** The warnings the constructor logs are, in order, warnings of failed
    resolutions of import sources of the wrapped identifier, at most one
    for each import source: the log is a sublist of the list of the
    warnings of the import sources. *)
Theorem construct_warnings params base w r :
  construct findPackageJSON readPackageJSON dirname join posixSlashes
    resolveSync minimatch params base = (w, r) →
  w = []
  ∨ ∃ tag ex src imps q,
      params = [ CalleeParam tag; CallParam [LazyValue ex src (Some imps)];
                 TemplateParam q ]
      ∧ w `sublist_of`
          ((λ i, resolve_warning i (base_filename base) src) <$> imps).
Proof.
  intros E.
  destruct (construct_shapes params base)
    as [(tag & m & q & -> & E')|[(tag & v & q & -> & E')|[E'|E']]];
    rewrite E' in E; try (injection E as <- <-; by left).
  unfold construct_component in E.
  destruct (componentOfCall_cases (base_options base) (base_filename base) v)
    as (w' & r' & Ec & _ & Hw).
  rewrite Ec in E.
  assert (w = w') as ->.
  { destruct r' as [[c deps]|e]; [|by injection E].
    destruct c as [c|]; [|by injection E].
    destruct (component_truthy (Some c)); by injection E. }
  destruct Hw as [->|(ex & src & imps & -> & Hsub)]; [by left|].
  right. eauto 10.
Qed.

Lemma construct_component_not_SKIP base tag op q :
  (construct_component findPackageJSON readPackageJSON dirname join
     posixSlashes resolveSync minimatch base tag op q).2 ≠ Throw SKIP.
Proof.
  unfold construct_component.
  destruct op as [ex|args|m|q']; try done.
  - destruct args as [|v [|v' args]]; try done.
    destruct (componentOfCall_cases (base_options base)
                (base_filename base) v) as (w' & r' & Ec & Hr & _).
    rewrite Ec. destruct r' as [[[c|] deps]|e]; try done.
    + by destruct (component_truthy (Some c)).
    + by destruct Hr as [pkg ->].
  - simpl. by destruct (truthy_string m).
Qed.

(** The constructor throws [SKIP] exactly on a parameter list that does
    not start with a callee and two more parameters, or that is a callee,
    a call or member, and a call in the place of the template; no failure
    met while the component is looked up turns into [SKIP]. *)
Theorem construct_SKIP params base :
  (construct findPackageJSON readPackageJSON dirname join posixSlashes
     resolveSync minimatch params base).2 = Throw SKIP
  ↔ (∀ tag op template rest,
       params ≠ CalleeParam tag :: op :: template :: rest)
    ∨ ∃ tag op args,
        params = [CalleeParam tag; op; CallParam args]
        ∧ ((∃ a, op = CallParam a) ∨ ∃ m, op = MemberParam m).
Proof.
  split.
  - intros E.
    destruct params as [|[tag| | |] [|op [|template rest]]];
      try (left; intros; discriminate).
    right. destruct rest as [|extra rest].
    + destruct op as [ex|args|m|q], template as [ex'|args'|m'|q'];
        try discriminate; try (by eauto 10);
        by destruct (construct_component_not_SKIP base tag _ _ E).
    + destruct op, template; discriminate.
  - intros [Hshape|(tag & op & args & -> & [[a ->]|[m ->]])];
      [|reflexivity..].
    destruct params as [|[tag| | |] [|op [|template rest]]]; try reflexivity.
    by destruct (Hshape tag op template rest).
Qed.

(** What a call argument that is not an imported identifier gives: no
    argument or more than one argument is an invalid usage, a constant is
    a tag name only when it is a non-empty string, and a member access is
    a tag name unless the property is the empty string.  None of these
    logs a warning or looks at a manifest. *)
Theorem construct_call_argument base tag q :
  let new :=
    construct findPackageJSON readPackageJSON dirname join posixSlashes
      resolveSync minimatch in
  let invalid := ([], Throw (Error invalid_usage)) in
  let tagged name :=
    ([], Normal (build base tag (TagName name) (template_dependencies q))) in
  new [CalleeParam tag; CallParam []; TemplateParam q] base = invalid
  ∧ (∀ v v' args,
       new [CalleeParam tag; CallParam (v :: v' :: args); TemplateParam q]
         base = invalid)
  ∧ (∀ ex c,
       new [CalleeParam tag; CallParam [ConstValue ex c]; TemplateParam q]
         base
       = match c with
         | ConstString s => if truthy_string s then tagged s else invalid
         | _ => invalid
         end)
  ∧ (∀ m,
       new [CalleeParam tag; MemberParam m; TemplateParam q] base
       = if truthy_string m then tagged m else invalid).
Proof.
  cbv zeta. split_and!; [done|done| |].
  - intros ex [[|a s]| | |]; try done.
    unfold construct, construct_component. simpl. by rewrite app_nil_r.
  - intros [|a s]; [done|].
    unfold construct, construct_component. simpl. by rewrite app_nil_r.
Qed.

(** An imported identifier is a styled component by default: without
    import sources nothing is looked up, and an import source that belongs
    to the call site's own package, whose manifest declares no mask,
    matches at once, whatever the resolver would say and whatever import
    sources follow.  The value is registered as a dependency. *)
Theorem construct_styled_by_default base tag ex src q :
  let new :=
    construct findPackageJSON readPackageJSON dirname join posixSlashes
      resolveSync minimatch in
  let styled imps :=
    ([], Normal (build base tag (ComponentRef ex false src)
                   (template_dependencies q ++ [LazyValue ex src imps]))) in
  let call imps :=
    [CalleeParam tag; CallParam [LazyValue ex src imps]; TemplateParam q] in
  new (call None) base = styled None
  ∧ new (call (Some [])) base = styled (Some [])
  ∧ (∀ i rest pkg manifest,
       findPackageJSON "." (base_filename base) = Some pkg →
       findPackageJSON i (base_filename base) = None
       ∨ findPackageJSON i (base_filename base) = Some pkg →
       truthy_string pkg = true →
       readPackageJSON pkg = Some manifest →
       linaria_components manifest = None →
       new (call (Some (i :: rest))) base = styled (Some (i :: rest))).
Proof.
  cbv zeta. split_and!; try done.
  intros i rest pkg manifest Hself Hi Htp Hread Hmask.
  unfold construct, construct_component, componentOfCall.
  cbn -[isSomeMatched]. unfold isSomeMatched, isMatched. rewrite Hself.
  assert (match findPackageJSON i (base_filename base) with
          | Some found => Some found
          | None => Some pkg
          end = Some pkg) as -> by (by destruct Hi as [-> | ->]).
  rewrite Htp, Hread, Hmask. by rewrite bool_decide_eq_true_2.
Qed.

(** With a mask declared and the module resolved, the glob match decides:
    the component is foreign exactly when the resolved file does not match
    the mask, made of the manifest's directory and the mask with forward
    slashes; it is a dependency exactly when it matches, and nothing is
    logged. *)
Theorem construct_mask_decides base tag ex src i q file pkg manifest mask
    path :
  let value := LazyValue ex src (Some [i]) in
  let matched :=
    minimatch path (posixSlashes (join (dirname pkg) mask)) in
  base_filename base = Some file →
  match findPackageJSON i (Some file) with
  | Some found => Some found
  | None => findPackageJSON "." (Some file)
  end = Some pkg →
  truthy_string pkg = true →
  readPackageJSON pkg = Some manifest →
  linaria_components manifest = Some mask →
  truthy_string mask = true →
  resolveSync i (dirname file) (extensions (base_options base)) = Some path →
  construct findPackageJSON readPackageJSON dirname join posixSlashes
    resolveSync minimatch
    [CalleeParam tag; CallParam [value]; TemplateParam q] base
  = ([], Normal (build base tag (ComponentRef ex (negb matched) src)
                   (template_dependencies q
                    ++ if matched then [value] else []))).
Proof.
  intros value matched Hfile Hpkg Htp Hread Hmask Htm Hres.
  unfold construct, construct_component, componentOfCall.
  cbn -[isSomeMatched]. unfold isSomeMatched, isMatched, try_resolve.
  rewrite Hfile, Hpkg, Htp, Hread, Hmask. simpl. rewrite Htm.
  rewrite bool_decide_eq_false_2 by (by intros [_ ?]).
  rewrite Hres. fold matched. by destruct matched.
Qed.

(** A manifest that cannot be read or parsed is fatal, unlike a module
    that cannot be resolved: the exception leaves the constructor, and the
    import sources after it are not tried. *)
Theorem construct_manifest_error base tag ex src i rest q pkg :
  match findPackageJSON i (base_filename base) with
  | Some found => Some found
  | None => findPackageJSON "." (base_filename base)
  end = Some pkg →
  truthy_string pkg = true →
  readPackageJSON pkg = None →
  construct findPackageJSON readPackageJSON dirname join posixSlashes
    resolveSync minimatch
    [ CalleeParam tag; CallParam [LazyValue ex src (Some (i :: rest))];
      TemplateParam q ] base
  = ([], Throw (ManifestError pkg)).
Proof.
  intros Hpkg Htp Hread.
  unfold construct, construct_component, componentOfCall.
  cbn -[isSomeMatched]. unfold isSomeMatched, isMatched.
  by rewrite Hpkg, Htp, Hread.
Qed.

End ConstructorOutcomes.

Lemma isSomeMatched_short_circuit_witness :
  isSomeMatched findPackageJSON_by_name readPackageJSON_no_mask
    example_dirname example_join example_posixSlashes resolveSync_fails
    example_minimatch example_options (Some "/app/src/Title.js")
    (Some "/app/package.json") "Button" ["ui-kit"; "./Button"; "other-kit"]
  = isSomeMatched findPackageJSON_by_name readPackageJSON_no_mask
      example_dirname example_join example_posixSlashes resolveSync_fails
      example_minimatch example_options (Some "/app/src/Title.js")
      (Some "/app/package.json") "Button" ["ui-kit"; "./Button"].
Proof.
  apply (isSomeMatched_short_circuit findPackageJSON_by_name
           readPackageJSON_no_mask example_dirname example_join
           example_posixSlashes resolveSync_fails example_minimatch
           example_options (Some "/app/src/Title.js")
           (Some "/app/package.json") "Button"
           ["ui-kit"] "./Button" ["other-kit"]).
  - intros b Hb. apply list_elem_of_singleton in Hb. subst b. reflexivity.
  - reflexivity.
Defined.


Lemma construct_warnings_witness :
  [resolve_warning "./Button" (Some "/app/src/Title.js") "Button"] = []
  ∨ ∃ tag ex src imps q,
      button_params
      = [ CalleeParam tag; CallParam [LazyValue ex src (Some imps)];
          TemplateParam q ]
      ∧ [resolve_warning "./Button" (Some "/app/src/Title.js") "Button"]
        `sublist_of`
        ((λ i, resolve_warning i (base_filename example_base) src) <$> imps).
Proof.
  apply (construct_warnings example_findPackageJSON example_readPackageJSON
           example_dirname example_join example_posixSlashes
           resolveSync_fails example_minimatch button_params example_base
           [resolve_warning "./Button" (Some "/app/src/Title.js") "Button"]
           (Normal (build example_base (Identifier "styled")
                      (ComponentRef "Button" true "Button") []))).
  vm_compute. reflexivity.
Defined.

Lemma construct_styled_by_default_witness :
  construct findPackageJSON_by_name readPackageJSON_no_mask example_dirname
    example_join example_posixSlashes resolveSync_fails example_minimatch
    button_params example_base
  = ([], Normal (build example_base (Identifier "styled")
                   (ComponentRef "Button" false "Button")
                   [LazyValue "Button" "Button" (Some ["./Button"])])).
Proof.
  apply (proj2 (proj2 (construct_styled_by_default findPackageJSON_by_name
                         readPackageJSON_no_mask example_dirname example_join
                         example_posixSlashes resolveSync_fails
                         example_minimatch example_base (Identifier "styled")
                         "Button" "Button" [TemplateQuasi "color: red;"]))
           "./Button" [] "/app/package.json"
           {| linaria_components := None |});
    [reflexivity|right; reflexivity|reflexivity|reflexivity|reflexivity].
Defined.

Lemma construct_mask_decides_witness :
  construct example_findPackageJSON example_readPackageJSON example_dirname
    example_join example_posixSlashes resolveSync_finds minimatch_all
    button_params example_base
  = ([], Normal (build example_base (Identifier "styled")
                   (ComponentRef "Button" false "Button")
                   [LazyValue "Button" "Button" (Some ["./Button"])])).
Proof.
  apply (construct_mask_decides example_findPackageJSON
           example_readPackageJSON example_dirname example_join
           example_posixSlashes resolveSync_finds minimatch_all
           example_base (Identifier "styled") "Button" "Button" "./Button"
           [TemplateQuasi "color: red;"] "/app/src/Title.js" "/app/package.json"
           {| linaria_components := Some "src/components/**" |}
           "src/components/**" "/app/src/components/Button.js");
    reflexivity.
Defined.

Lemma construct_manifest_error_witness :
  construct example_findPackageJSON readPackageJSON_fails example_dirname
    example_join example_posixSlashes resolveSync_fails example_minimatch
    button_params example_base
  = ([], Throw (ManifestError "/app/package.json")).
Proof.
  apply (construct_manifest_error example_findPackageJSON
           readPackageJSON_fails example_dirname example_join
           example_posixSlashes resolveSync_fails example_minimatch
           example_base (Identifier "styled") "Button" "Button" "./Button"
           [] [TemplateQuasi "color: red;"] "/app/package.json"); reflexivity.
Defined.

(** ** Rule extraction: results and cycles *)

Section RuleResults.

Variable heap : gmap positive ObjectData.

Lemma selectorLoop_Some_chain fuel : ∀ selector v result,
  selectorLoop fuel heap selector v = Some result →
  ∃ names,
    extends_chain heap v names
    ∧ length names ≤ fuel
    ∧ result = selector +:+ class_segments names.
Proof.
  induction fuel as [|fuel IH]; intros selector v result; simpl;
    destruct (hasEvalMeta heap v) as [meta|] eqn:Hmeta; try done.
  - intros [= <-]. exists []. split_and!; [by apply chain_end|done|].
    by rewrite append_empty_r.
  - intros (names & Hchain & Hlen & ->)%IH.
    exists (meta_className meta :: names).
    split_and!; [by eapply chain_link|simpl; lia|].
    simpl. by rewrite !append_assoc.
  - intros [= <-]. exists []. split_and!; [by apply chain_end|simpl; lia|].
    by rewrite append_empty_r.
Qed.

(** Whenever extraction returns, it returns exactly one rule; its selector
    is [asSelector] followed by the class names of a finite chain of
    metadata, which is not longer than the number of loop iterations
    allowed, and its other fields are those of the call site. *)
Theorem extractRules_result fuel p valueCache cssText loc rules :
  extractRules fuel p heap valueCache cssText loc = Some rules →
  ∃ names,
    extends_chain heap (extendedValue p valueCache) names
    ∧ length names ≤ fuel
    ∧ rules
      = {[ asSelector p +:+ class_segments names :=
             {| rule_cssText := cssText;
                rule_className := className p;
                rule_displayName := displayName p;
                rule_start := loc_start <$> loc |} ]}.
Proof.
  unfold extractRules.
  destruct (selectorLoop fuel heap ("." +:+ className p)
              (extendedValue p valueCache)) as [selector|] eqn:E; [|done].
  simpl. intros [= <-].
  apply selectorLoop_Some_chain in E as (names & Hchain & Hlen & ->).
  exists names. split_and!; done.
Qed.

(** For an intrinsic tag, a foreign component, or an identifier whose
    evaluated value is missing from the table or has no metadata, the
    selector is [asSelector] alone, and the loop body never runs: no fuel
    is needed. *)
Theorem extractRules_plain_selector fuel p valueCache cssText loc :
  (∃ tag, component p = TagName tag)
  ∨ (∃ node src, component p = ComponentRef node true src)
  ∨ (∃ node src, component p = ComponentRef node false src
       ∧ (valueCache !! node = None
          ∨ ∃ v, valueCache !! node = Some v ∧ hasEvalMeta heap v = None)) →
  extractRules fuel p heap valueCache cssText loc
  = Some {[ asSelector p :=
              {| rule_cssText := cssText;
                 rule_className := className p;
                 rule_displayName := displayName p;
                 rule_start := loc_start <$> loc |} ]}.
Proof.
  intros H. unfold extractRules.
  rewrite selectorLoop_stop; [done|].
  unfold extendedValue, valueCache_get.
  destruct H as [[tag ->]|[(node & src & ->)|(node & src & -> & H)]];
    [done|done|].
  destruct H as [->|(v & -> & Hv)]; done.
Qed.

Lemma selectorLoop_enters_cycle l l' :
  rtc (extends_link heap) l l' →
  tc (extends_link heap) l' l' →
  ∀ fuel selector, selectorLoop fuel heap selector (VObject l) = None.
Proof.
  induction 1 as [l|l l0 l' Hl _ IH]; intros Hc fuel selector.
  - by apply selectorLoop_cycle.
  - destruct fuel as [|fuel]; destruct Hl as (m & Hm & He);
      simpl in *; rewrite Hm; [done|].
    rewrite He. by apply IH.
Qed.

(** When the metadata chain of the wrapped component runs into a cycle of
    [extends] links, extraction never returns, however many iterations it
    is allowed. *)
Theorem extractRules_cycle p valueCache cssText loc node src l l' :
  component p = ComponentRef node false src →
  valueCache !! node = Some (VObject l) →
  rtc (extends_link heap) l l' →
  tc (extends_link heap) l' l' →
  ∀ fuel, extractRules fuel p heap valueCache cssText loc = None.
Proof.
  intros Hc Hv Hl Hcycle fuel. unfold extractRules, extendedValue.
  rewrite Hc. unfold valueCache_get. rewrite Hv. simpl.
  by rewrite (selectorLoop_enters_cycle l l').
Qed.

End RuleResults.

Lemma extractRules_result_witness :
  ∃ names,
    extends_chain (three_level_heap "a" "b")
      (extendedValue outer_processor three_level_cache) names
    ∧ length names ≤ 5
    ∧ ({[ ".c1x2.b.a" :=
            {| rule_cssText := "color: red;";
               rule_className := "c1x2";
               rule_displayName := "Title";
               rule_start := None |} ]} : gmap string ICSSRule)
      = {[ asSelector outer_processor +:+ class_segments names :=
             {| rule_cssText := "color: red;";
                rule_className := className outer_processor;
                rule_displayName := displayName outer_processor;
                rule_start := loc_start <$> None |} ]}.
Proof.
  apply (extractRules_result (three_level_heap "a" "b") 5 outer_processor
           three_level_cache "color: red;" None).
  vm_compute. reflexivity.
Defined.

Lemma extractRules_plain_selector_witness :
  extractRules 0 example_processor (three_level_heap "a" "b")
    three_level_cache "color: red;" None
  = Some {[ ".c1x2" :=
              {| rule_cssText := "color: red;";
                 rule_className := "c1x2";
                 rule_displayName := "Title";
                 rule_start := None |} ]}.
Proof.
  apply (extractRules_plain_selector (three_level_heap "a" "b") 0
           example_processor three_level_cache "color: red;" None).
  left. exists "h1". reflexivity.
Defined.

Lemma extractRules_cycle_witness :
  extractRules 1000 outer_processor looping_heap looping_cache
    "color: red;" None = None.
Proof.
  refine (extractRules_cycle looping_heap outer_processor looping_cache
            "color: red;" None "B" "B" 1%positive 1%positive
            _ _ _ _ 1000);
    [reflexivity|reflexivity|apply rtc_refl|].
  apply tc_once.
  exists {| meta_className := "x"; meta_extends := VObject 1 |}.
  split; reflexivity.
Defined.

(** ** The [vars] object: which interpolation an entry comes from *)

Section VarsFacts.

Variable html_elements svg_elements : list string.

Lemma foldl_vars_other l : ∀ (acc : gmap string (list Expression)) k,
  (∀ j, j ∈ l → int_id j ≠ k) →
  foldl (λ vars i, <[int_id i := var_items i]> vars) acc l !! k = acc !! k.
Proof.
  induction l as [|i l IH]; intros acc k Hk; simpl; [done|].
  rewrite IH.
  - apply lookup_insert_ne, Hk, elem_of_cons. by left.
  - intros j Hj. apply Hk, elem_of_cons. by right.
Qed.

Lemma foldl_vars_domain l : ∀ (acc : gmap string (list Expression)),
  dom (foldl (λ vars i, <[int_id i := var_items i]> vars) acc l)
  =@{gset string} dom acc ∪ list_to_set (int_id <$> l).
Proof.
  induction l as [|i l IH]; intros acc; simpl.
  - set_solver.
  - rewrite IH, dom_insert_L. set_solver.
Qed.

Lemma foldl_vars_size l : ∀ (acc : gmap string (list Expression)),
  size (foldl (λ vars i, <[int_id i := var_items i]> vars) acc l)
  ≤ size acc + length l.
Proof.
  induction l as [|i l IH]; intros acc; simpl; [lia|].
  etrans; [apply IH|]. rewrite map_size_insert.
  destruct (acc !! int_id i); simpl; lia.
Qed.

(** When several interpolations were recorded under one id, the entry of
    [vars] is built from the last of them: its expression and its unit
    replace those of the earlier ones. *)
Theorem getProps_vars_last_wins p before i after :
  interpolations p = before ++ i :: after →
  (∀ j, j ∈ after → int_id j ≠ int_id i) →
  ∃ vars,
    props_vars (getProps html_elements svg_elements p) = Some vars
    ∧ vars !! int_id i
      = Some (CallExpression (int_node i) []
              :: (if truthy_string (int_unit i)
                  then [stringLiteral (int_unit i)] else [])).
Proof.
  intros Hint Hafter. unfold getProps. simpl. rewrite Hint.
  destruct (before ++ i :: after) as [|i0 l] eqn:El.
  { by destruct before. }
  eexists. split; [done|]. rewrite <- El, collect_vars_var_items.
  rewrite foldl_app. simpl. rewrite foldl_vars_other by done.
  by rewrite lookup_insert_eq.
Qed.

(** The keys of [vars] are exactly the ids of the recorded interpolations,
    so that [vars] has as many entries as there are distinct ids. *)
Theorem getProps_vars_keys p vars :
  props_vars (getProps html_elements svg_elements p) = Some vars →
  dom vars =@{gset string} list_to_set (int_id <$> interpolations p)
  ∧ size vars = length (remove_dups (int_id <$> interpolations p))
  ∧ size vars ≤ length (interpolations p).
Proof.
  unfold getProps. simpl.
  destruct (interpolations p) as [|i0 l] eqn:El; [done|].
  intros [= <-]. rewrite collect_vars_var_items.
  assert (dom (foldl (λ vars i, <[int_id i := var_items i]> vars)
                 (∅ : gmap string (list Expression)) (i0 :: l))
          =@{gset string} list_to_set (int_id <$> i0 :: l)) as Hdom.
  { rewrite foldl_vars_domain, dom_empty_L. set_solver. }
  split; [done|].
  assert (size (foldl (λ vars i, <[int_id i := var_items i]> vars)
                  (∅ : gmap string (list Expression)) (i0 :: l))
          = length (remove_dups (int_id <$> i0 :: l))) as Hsize.
  { rewrite <- size_dom, Hdom.
    rewrite <- (size_list_to_set (C := gset string)
                  (remove_dups (int_id <$> i0 :: l)))
      by apply NoDup_remove_dups.
    f_equal. apply set_eq. intros k.
    by rewrite !elem_of_list_to_set, elem_of_remove_dups. }
  split; [done|].
  etrans; [apply foldl_vars_size|]. by rewrite map_size_empty.
Qed.

End VarsFacts.

Lemma getProps_vars_last_wins_witness :
  ∃ vars,
    props_vars
      (getProps example_html_elements example_svg_elements twice_recorded)
    = Some vars
    ∧ vars !! "t1abc-0"
      = Some [CallExpression (Identifier "large") []; stringLiteral "px"].
Proof.
  apply (getProps_vars_last_wins example_html_elements example_svg_elements
           twice_recorded
           [ {| int_id := "t1abc-0"; int_node := Identifier "small";
                int_source := "size"; int_unit := "px" |} ]
           {| int_id := "t1abc-0"; int_node := Identifier "large";
              int_source := "size"; int_unit := "px" |} []).
  - reflexivity.
  - intros j Hj. by apply not_elem_of_nil in Hj.
Defined.

Lemma getProps_vars_keys_witness :
  size (collect_vars (interpolations twice_recorded))
  = length (remove_dups (int_id <$> interpolations twice_recorded)).
Proof.
  apply (getProps_vars_keys example_html_elements example_svg_elements
           twice_recorded (collect_vars (interpolations twice_recorded))).
  reflexivity.
Defined.

(** ** The replacements *)

Section ReplacementFacts.

Variable object_entries :
  gmap string (list Expression) → list (string * list Expression).
Variable html_elements svg_elements : list string.

(** The runtime replacement is a pure call of the tag expression on one
    object whose keys are [name], [class] and [propsAsIs], in this order,
    followed by [vars] exactly when an interpolation was recorded. *)
Theorem doRuntimeReplacement_shape p :
  ∃ properties,
    doRuntimeReplacement object_entries html_elements svg_elements p
    = (CallExpression
         (CallExpression (callee p) [tagExpressionArgument p])
         [ObjectExpression properties],
       true)
    ∧ properties.*1
      = Identifier
        <$> ["name"; "class"; "propsAsIs"]
            ++ match interpolations p with
               | [] => []
               | _ :: _ => ["vars"]
               end.
Proof.
  unfold doRuntimeReplacement, getTagComponentProps, props_entries, getProps.
  simpl. eexists. split; [reflexivity|].
  by destruct (interpolations p).
Qed.

(** When [Object.entries] lists every entry of [vars] once, the generated
    [vars] object has one property per distinct interpolation id: no key
    twice, and a key for every recorded interpolation. *)
Theorem doRuntimeReplacement_vars p :
  (∀ m, object_entries m ≡ₚ map_to_list m) →
  interpolations p ≠ [] →
  ∃ properties entries,
    (doRuntimeReplacement object_entries html_elements svg_elements p).1
    = CallExpression (tagExpression p) [ObjectExpression properties]
    ∧ last properties = Some (Identifier "vars", ObjectExpression entries)
    ∧ NoDup entries.*1
    ∧ (∀ i, i ∈ interpolations p →
         ∃ items,
           (stringLiteral (int_id i), ArrayExpression items) ∈ entries)
    ∧ (∀ key node, (key, node) ∈ entries →
         ∃ i, i ∈ interpolations p ∧ key = stringLiteral (int_id i)
              ∧ node = ArrayExpression (var_items i)).
Proof.
  intros Hentries Hne.
  unfold doRuntimeReplacement, getTagComponentProps, props_entries.
  destruct (getProps_vars_entries html_elements svg_elements p
              (collect_vars (interpolations p))) as [Hdom Hitems].
  { unfold getProps. simpl. by destruct (interpolations p). }
  assert (props_vars (getProps html_elements svg_elements p)
          = Some (collect_vars (interpolations p))) as ->.
  { unfold getProps. simpl. by destruct (interpolations p). }
  simpl. eexists _, _. split; [reflexivity|]. split; [reflexivity|].
  set (vars := collect_vars (interpolations p)) in *.
  split_and!.
  - rewrite <- list_fmap_compose.
    change ((fst ∘ λ kv : string * list Expression,
               (stringLiteral kv.1, ArrayExpression kv.2)))
      with (stringLiteral ∘ (fst : string * list Expression → string)).
    rewrite list_fmap_compose. apply NoDup_fmap_2.
    + by intros k1 k2 [=].
    + rewrite (Hentries vars). apply NoDup_fst_map_to_list.
  - intros i [items Hi]%Hdom. exists items.
    apply list_elem_of_fmap. exists (int_id i, items). split; [done|].
    rewrite (Hentries vars). by apply elem_of_map_to_list.
  - intros key node ([id items] & [= -> ->] & Hin)%list_elem_of_fmap.
    rewrite (Hentries vars) in Hin. apply elem_of_map_to_list in Hin.
    destruct (Hitems _ _ Hin) as (i & Hi & <- & ->). eauto.
Qed.

End ReplacementFacts.

Lemma doRuntimeReplacement_vars_witness :
  ∃ properties entries,
    (doRuntimeReplacement map_to_list example_html_elements
       example_svg_elements twice_recorded).1
    = CallExpression (tagExpression twice_recorded)
        [ObjectExpression properties]
    ∧ last properties = Some (Identifier "vars", ObjectExpression entries)
    ∧ NoDup entries.*1.
Proof.
  destruct (doRuntimeReplacement_vars map_to_list example_html_elements
              example_svg_elements twice_recorded)
    as (properties & entries & H1 & H2 & H3 & _).
  - reflexivity.
  - discriminate.
  - exists properties, entries. exact (conj H1 (conj H2 H3)).
Defined.

(** ** The validator: which values are evaluation errors *)

Section ValidatorMore.

Variable isSerializable : JSValue → bool.
Variable toDisplayString : JSValue → string.
Variable JSON_stringify : JSValue → string.
Variable generator_code : Expression → string.

Lemma error_like_inv v :
  error_like v = true →
  (∃ properties, v = JSObject properties)
  ∧ truthy (get_property v "stack") = true
  ∧ truthy (get_property v "message") = true.
Proof.
  unfold error_like. rewrite !andb_true_iff. intros [[[Hv Hn] Hs] Hm].
  destruct v; simpl in *; try done. eauto.
Qed.

(** The evaluation error is thrown exactly for an object that the
    serializable predicate does not recognize and whose [stack] and
    [message] are both truthy; a primitive value never gets it, whatever
    it is. *)
Theorem throwIfInvalid_EvaluationError v node message :
  throwIfInvalid isSerializable toDisplayString JSON_stringify
    generator_code v node = Some (EvaluationError message)
  ↔ isSerializable v = false
    ∧ (∃ properties, v = JSObject properties)
    ∧ truthy (get_property v "stack") = true
    ∧ truthy (get_property v "message") = true
    ∧ message = evaluation_message toDisplayString v.
Proof.
  unfold throwIfInvalid. split.
  - destruct (accepted isSerializable v) eqn:Ha; [done|].
    destruct (error_like v) eqn:He; [|done]. intros [= <-].
    unfold accepted in Ha. apply orb_false_elim in Ha as [_ Hser].
    apply error_like_inv in He as (Hobj & Hs & Hm). done.
  - intros (Hser & [properties ->] & Hs & Hm & ->).
    unfold accepted, error_like. by rewrite Hser, Hs, Hm.
Qed.

End ValidatorMore.

Lemma throwIfInvalid_EvaluationError_witness :
  example_isSerializable reference_error = false
  ∧ (∃ properties, reference_error = JSObject properties)
  ∧ truthy (get_property reference_error "stack") = true
  ∧ truthy (get_property reference_error "message") = true
  ∧ evaluation_message example_toDisplayString reference_error
    = evaluation_message example_toDisplayString reference_error.
Proof.
  apply (proj1 (throwIfInvalid_EvaluationError example_isSerializable
                  example_toDisplayString example_JSON_stringify
                  example_generator_code reference_error
                  (SourceNode "window.innerWidth")
                  (evaluation_message example_toDisplayString
                     reference_error))).
  reflexivity.
Defined.

(** ** A styled intrinsic tag, from construction to its outputs *)

Section IntrinsicTag.

Variable findPackageJSON : string → option string → option string.
Variable readPackageJSON : string → option PackageJSON.
Variable dirname : string → string.
Variable join : string → string → string.
Variable posixSlashes : string → string.
Variable resolveSync : string → string → list string → option string.
Variable minimatch : string → string → bool.
Variable html_elements svg_elements : list string.

(** [styled.<name>] for a known HTML element name: construction succeeds
    without a warning or file access, with the expression values of the
    template as the only dependencies; the wrapper filters props
    ([propsAsIs] is false) and has no [vars] before an interpolation is
    recorded; the rule's selector is the class name alone whatever the
    evaluated values are; and the eval-time metadata extends nothing. *)
Theorem styled_intrinsic_tag base tag name q :
  truthy_string name = true →
  name ∈ html_elements →
  let p := build base tag (TagName name) (template_dependencies q) in
  construct findPackageJSON readPackageJSON dirname join posixSlashes
    resolveSync minimatch
    [CalleeParam tag; MemberParam name; TemplateParam q] base
  = ([], Normal p)
  ∧ props_propsAsIs (getProps html_elements svg_elements p) = false
  ∧ props_vars (getProps html_elements svg_elements p) = None
  ∧ (∀ fuel heap valueCache cssText loc,
       extractRules fuel p heap valueCache cssText loc
       = Some {[ "." +:+ base_className base :=
                   {| rule_cssText := cssText;
                      rule_className := base_className base;
                      rule_displayName := base_displayName base;
                      rule_start := loc_start <$> loc |} ]})
  ∧ doEvaltimeReplacement p
    = (ObjectExpression
         [ (stringLiteral "displayName",
            stringLiteral (base_displayName base));
           (stringLiteral "__wyw_meta",
            ObjectExpression
              [ (stringLiteral "className",
                 stringLiteral (base_className base));
                (stringLiteral "extends", NullLiteral) ]) ],
       false).
Proof.
  intros Htruthy Hin p. split_and!.
  - unfold construct, construct_component. simpl.
    by rewrite Htruthy, app_nil_r.
  - apply getProps_propsAsIs_false. by exists name.
  - done.
  - intros fuel heap valueCache cssText loc. unfold extractRules.
    by rewrite selectorLoop_stop.
  - done.
Qed.

End IntrinsicTag.

Lemma styled_intrinsic_tag_witness :
  construct example_findPackageJSON example_readPackageJSON example_dirname
    example_join example_posixSlashes resolveSync_fails example_minimatch
    div_params example_base
  = ([], Normal (build example_base (Identifier "styled") (TagName "div")
                   [LazyValue "x" "x" None])).
Proof.
  apply (styled_intrinsic_tag example_findPackageJSON
           example_readPackageJSON example_dirname example_join
           example_posixSlashes resolveSync_fails example_minimatch
           example_html_elements example_svg_elements example_base
           (Identifier "styled") "div" example_template).
  - reflexivity.
  - unfold example_html_elements.
    apply elem_of_cons. right. apply elem_of_cons. by left.
Defined.
